(** * Spotify dashboard pipeline: [streamlit_app.py]

    A shallow embedding of the data-preparation and aggregation code of
    [streamlit_app.py] ([load_and_preprocess_data], [get_top_artists],
    [get_popularity_by_genre], [get_correlation_matrix] and the yearly
    trend computed at the top level of the script), together with the
    pandas operations these functions call.

    Modelling conventions.
    - A DataFrame is the list of its rows, in index order. The text
      columns are columns of strings (dtype object): the cells of such a
      column are texts, or NaN where the file has a missing-value marker.
      A file whose text column holds nothing but numbers is read by pandas
      as a column of numbers; such files are outside the model.
    - The dtype of a column is not part of a row. The code depends on it
      at one place, the [.str] accessor of [get_popularity_by_genre]; there
      a frame is taken with the dtype of its genre column ([DataFrame]).
    - A text cell that pandas holds as NaN is [None].
    - Numeric cells are exact rationals ([Q]); every row carries a number in
      each numeric column.  Arithmetic is exact: float64 rounding, overflow
      and underflow are outside the model.
    - A Python exception is the [Raise] branch of [result]. *)

From Stdlib Require Import ZArith QArith Qreduction Qreals Reals.
From Stdlib Require Import Lia Lra Psatz List String Ascii Bool.
From Stdlib Require Import Sorting Permutation RelationClasses.
From Stdlib Require OrderedTypeEx.
Import ListNotations.

Local Open Scope string_scope.
Local Open Scope Q_scope.

(** ** Exceptions *)

(** [DateParseError] is the [ValueError] that [pd.to_datetime] raises (with
    its default [errors='raise']) on a cell it cannot parse.
    [AttributeError] is what the [.str] accessor raises on a column that is
    not of strings. *)
Inductive exn : Type :=
  | DateParseError
  | AttributeError.

Inductive result (A : Type) : Type :=
  | Ok (a : A)
  | Raise (e : exn).

Arguments Ok {A} a.
Arguments Raise {A} e.

Definition bind {A B : Type} (m : result A) (k : A -> result B) : result B :=
  match m with
  | Ok a => k a
  | Raise e => Raise e
  end.

Notation "x <- m ;; k" := (bind m (fun x => k))
  (at level 61, m at next level, right associativity).

Fixpoint mapM {A B : Type} (f : A -> result B) (l : list A) : result (list B) :=
  match l with
  | [] => Ok []
  | a :: t => b <- f a ;; bs <- mapM f t ;; Ok (b :: bs)
  end.

(** ** The pandas operations used by the script *)

Module Pandas.

(** *** [read_csv]: missing-value markers *)

(** The strings that [read_csv] turns into NaN by default
    ([keep_default_na=True], [na_filter=True]). *)
Definition STR_NA_VALUES : list string :=
  [ ""; "#N/A"; "#N/A N/A"; "#NA"; "-1.#IND"; "-1.#QNAN"; "-NaN"; "-nan";
    "1.#IND"; "1.#QNAN"; "<NA>"; "N/A"; "NA"; "NULL"; "NaN"; "None";
    "n/a"; "nan"; "null" ].

Definition is_na_cell (cell : string) : bool :=
  existsb (String.eqb cell) STR_NA_VALUES.

Definition read_cell (cell : string) : option string :=
  if is_na_cell cell then None else Some cell.

(** *** [Series.fillna] *)

Definition fillna {A : Type} (value : A) (cell : option A) : option A :=
  match cell with
  | None => Some value
  | Some _ => cell
  end.

(** *** [to_datetime] *)

Record Timestamp : Type := mkTimestamp
  { year : Z; month : Z; day : Z }.

(** The first non-null cell of a column: pandas guesses the date format
    of the whole column from it. *)
Fixpoint first_non_null {A : Type} (col : list (option A)) : option A :=
  match col with
  | [] => None
  | Some a :: _ => Some a
  | None :: t => first_non_null t
  end.

Section ToDatetime.

(** The scalar date parser behind [to_datetime]: given the cell from
    which the format is guessed and a cell, the parsed date, or [None]
    where pandas raises. *)
Variable parse : option string -> string -> option Timestamp.

(** NaN is not parsed: it becomes NaT. *)
Definition to_datetime_cell (seed : option string) (cell : option string)
  : result (option Timestamp) :=
  match cell with
  | None => Ok None
  | Some s =>
      match parse seed s with
      | Some t => Ok (Some t)
      | None => Raise DateParseError
      end
  end.

Definition to_datetime (col : list (option string))
  : result (list (option Timestamp)) :=
  mapM (to_datetime_cell (first_non_null col)) col.

End ToDatetime.

(** [Series.dt.year]: NaT gives NaN. *)
Definition dt_year (t : option Timestamp) : option Z :=
  option_map year t.

(** *** [cut] with [right=False] *)

(** [np.searchsorted(bins, x, side='right')] on increasing [bins]: the
    number of leading edges that are [<= x]. *)
Fixpoint searchsorted_right (bins : list Q) (x : Q) : nat :=
  match bins with
  | [] => O
  | b :: bs => if Qle_bool b x then S (searchsorted_right bs x) else O
  end.

(** [pd.cut(x, bins, labels=labels, right=False)] for one value: the
    label of the interval [[bins[i-1], bins[i])] that holds [x]; NaN when
    [x] is below the first edge, or not below the last one. *)
Definition cut {L : Type} (x : Q) (bins : list Q) (labels : list L)
  : option L :=
  let ids := searchsorted_right bins x in
  if (Nat.eqb ids (List.length bins) || Nat.eqb ids 0)%bool then None
  else nth_error labels (ids - 1).

(** *** The [.str] accessor *)

(** The dtype of a column of text cells. [read_csv] makes it [object], a
    column of strings with NaN at the missing cells, when some cell holds
    a text or the file has no line at all, and [float64], a column of NaN,
    when every cell of the column is missing. *)
Inductive dtype : Type :=
  | object
  | float64.

(** [Series.str] takes a column of dtype object and raises on a column
    of numbers, whatever its length ("Can only use .str accessor with
    string values"). *)
Definition str_accessor (d : dtype) : result unit :=
  match d with
  | object => Ok tt
  | float64 => Raise AttributeError
  end.

(** *** [str.split] *)

(** [s.split(sep)] for a non-empty [sep]: cut at each occurrence of
    [sep], left to right, occurrences not overlapping. [cur] is the token
    being read, [skip] the number of characters of a separator still to
    pass over. *)
Fixpoint split_aux (sep : string) (skip : nat) (cur : string) (s : string)
  : list string :=
  match s with
  | EmptyString => [cur]
  | String c rest =>
      match skip with
      | S k => split_aux sep k cur rest
      | O =>
          if prefix sep s
          then cur :: split_aux sep (String.length sep - 1) "" rest
          else split_aux sep 0 (cur ++ String c "") rest
      end
  end.

Definition split (sep : string) (s : string) : list string :=
  split_aux sep 0 "" s.

(** *** Sorting *)

Fixpoint insert_sorted {A : Type} (leb : A -> A -> bool) (x : A)
  (l : list A) : list A :=
  match l with
  | [] => [x]
  | y :: t => if leb x y then x :: l else y :: insert_sorted leb x t
  end.

(** An ascending, stable sort. *)
Definition sort {A : Type} (leb : A -> A -> bool) (l : list A) : list A :=
  fold_right (insert_sorted leb) [] l.

(** A Series: index labels with their values, in order. *)
Definition Series (K : Type) : Type := list (K * Q).

Definition value_leb {K : Type} (a b : K * Q) : bool :=
  Qle_bool (snd a) (snd b).

(** [Series.sort_values(ascending=False)]: pandas reverses the values,
    sorts them ascending and reverses the outcome. The order of entries
    with equal values is left open by pandas (its default sort is not
    stable); nothing below depends on it. *)
Definition sort_values_desc {K : Type} (s : Series K) : Series K :=
  rev (sort value_leb (rev s)).

(** [head(n)]: the first [n] entries; for a negative [n], all but the
    last [-n]. *)
Definition head {A : Type} (n : Z) (l : list A) : list A :=
  if (0 <=? n)%Z then firstn (Z.to_nat n) l
  else firstn (List.length l - Z.to_nat (- n)) l.

(** *** [groupby(key)[value].mean()] *)

Definition sum (xs : list Q) : Q := fold_left Qplus xs 0.

Definition mean (xs : list Q) : Q :=
  Qred (sum xs / inject_Z (Z.of_nat (List.length xs))).

Fixpoint omap {A B : Type} (f : A -> option B) (l : list A) : list B :=
  match l with
  | [] => []
  | a :: t =>
      match f a with
      | Some b => b :: omap f t
      | None => omap f t
      end
  end.

Section GroupBy.

Context {Row K : Type}.
Variable eq_dec : forall a b : K, {a = b} + {a <> b}.
Variable leb : K -> K -> bool.
Variable key : Row -> option K.
Variable value : Row -> Q.

Definition has_key (k : K) (r : Row) : bool :=
  match key r with
  | Some k' => if eq_dec k' k then true else false
  | None => false
  end.

(** The group labels: the distinct non-null keys, sorted ascending
    ([sort=True], [dropna=True]). *)
Definition group_keys (df : list Row) : list K :=
  sort leb (nodup eq_dec (omap key df)).

Definition group_values (df : list Row) (k : K) : list Q :=
  map value (filter (has_key k) df).

Definition groupby_mean (df : list Row) : Series K :=
  map (fun k => (k, mean (group_values df k))) (group_keys df).

End GroupBy.

(** *** [DataFrame.corr] (Pearson, [min_periods=1]) *)

(** The running state of the one-pass (Welford) loop of [nancorr] for
    one pair of columns. *)
Record welford : Type := mkWelford
  { nobs : Z;
    meanx : Q; meany : Q;
    ssqdm_x : Q; ssqdm_y : Q;
    covxy : Q }.

Definition welford_init : welford := mkWelford 0 0 0 0 0 0.

Definition welford_step (w : welford) (v : Q * Q) : welford :=
  let vx := fst v in
  let vy := snd v in
  let n := (nobs w + 1)%Z in
  let dx := vx - meanx w in
  let dy := vy - meany w in
  let mx := meanx w + (1 / inject_Z n) * dx in
  let my := meany w + (1 / inject_Z n) * dy in
  mkWelford n mx my
    (ssqdm_x w + (vx - mx) * dx)
    (ssqdm_y w + (vy - my) * dy)
    (covxy w + (vx - mx) * dy).

Definition welford_run (xs ys : list Q) : welford :=
  fold_left welford_step (combine xs ys) welford_init.

Definition clip (val : R) : R :=
  if Rgt_dec val 1 then 1%R
  else if Rlt_dec val (-1) then (-1)%R
  else val.

(** One entry: NaN with fewer than [min_periods = 1] observations or a
    zero divisor, otherwise the coefficient clipped to [[-1, 1]]. *)
Definition corr_pair (xs ys : list Q) : option R :=
  let w := welford_run xs ys in
  if (nobs w <? 1)%Z then None
  else
    let divisor := sqrt (Q2R (ssqdm_x w * ssqdm_y w)) in
    if Req_dec_T divisor 0 then None
    else Some (clip (Q2R (covxy w) / divisor)%R).

(** [nancorr] computes the entry for [yi <= xi] and stores it at both
    [(xi, yi)] and [(yi, xi)]. *)
Definition nancorr_entry (mat : list (list Q)) (i j : nat) : option R :=
  let xi := Nat.max i j in
  let yi := Nat.min i j in
  corr_pair (nth xi mat []) (nth yi mat []).

Definition nancorr (mat : list (list Q)) : list (list (option R)) :=
  let K := List.length mat in
  map (fun i => map (fun j => nancorr_entry mat i j) (seq 0 K)) (seq 0 K).

End Pandas.

Import Pandas.

(** ** The data *)

(** One line of the CSV file, as text cells and numbers. *)
Record CsvRow : Type := mkCsvRow
  { csv_artist_name : string;
    csv_artist_genres : string;
    csv_track_popularity : Q;
    csv_artist_popularity : Q;
    csv_artist_followers : Q;
    csv_track_duration_min : Q;
    csv_album_total_tracks : Q;
    csv_album_release_date : string }.

(** One row of the DataFrame that [read_csv] returns. *)
Record RawRow : Type := mkRawRow
  { raw_artist_name : option string;
    raw_artist_genres : option string;
    raw_track_popularity : Q;
    raw_artist_popularity : Q;
    raw_artist_followers : Q;
    raw_track_duration_min : Q;
    raw_album_total_tracks : Q;
    raw_album_release_date : option string }.

Inductive Category : Type :=
  | Low
  | Medium
  | High
  | VeryHigh.

(** One row of the DataFrame that [load_and_preprocess_data] returns. *)
Record Row : Type := mkRow
  { artist_name : option string;
    artist_genres : option string;
    track_popularity : Q;
    artist_popularity : Q;
    artist_followers : Q;
    track_duration_min : Q;
    album_total_tracks : Q;
    album_release_date : option Timestamp;
    duration_in_minutes : Q;
    popularity_category : option Category;
    release_year : option Z }.

(** ** [load_and_preprocess_data] *)

Definition read_row (line : CsvRow) : RawRow :=
  {| raw_artist_name := read_cell (csv_artist_name line);
     raw_artist_genres := read_cell (csv_artist_genres line);
     raw_track_popularity := csv_track_popularity line;
     raw_artist_popularity := csv_artist_popularity line;
     raw_artist_followers := csv_artist_followers line;
     raw_track_duration_min := csv_track_duration_min line;
     raw_album_total_tracks := csv_album_total_tracks line;
     raw_album_release_date := read_cell (csv_album_release_date line) |}.

(** [pd.read_csv], as to the cells of the rows: each text cell is kept,
    or becomes NaN when it is a missing-value marker. The dtype that
    pandas settles for a column from all the lines of the file is not held
    in the rows; see [DataFrame] for the genre column. *)
Definition read_csv (file : list CsvRow) : list RawRow :=
  map read_row file.

Definition notna {A : Type} (cell : option A) : bool :=
  match cell with
  | Some _ => true
  | None => false
  end.

(** [df.dropna(subset=['artist_name'], inplace=True)] *)
Definition dropna_artist_name (df : list RawRow) : list RawRow :=
  filter (fun r => notna (raw_artist_name r)) df.

(** [df['artist_genres'] = df['artist_genres'].fillna('unknown')] *)
Definition fill_genres (r : RawRow) : RawRow :=
  {| raw_artist_name := raw_artist_name r;
     raw_artist_genres := fillna "unknown" (raw_artist_genres r);
     raw_track_popularity := raw_track_popularity r;
     raw_artist_popularity := raw_artist_popularity r;
     raw_artist_followers := raw_artist_followers r;
     raw_track_duration_min := raw_track_duration_min r;
     raw_album_total_tracks := raw_album_total_tracks r;
     raw_album_release_date := raw_album_release_date r |}.

Definition fillna_artist_genres (df : list RawRow) : list RawRow :=
  map fill_genres df.

Definition bins : list Q := [0; 25; 50; 75; 100].
Definition labels : list Category := [Low; Medium; High; VeryHigh].

(** The three feature-engineering assignments, on one row whose release
    date has been converted. *)
Definition derive_row (rd : RawRow * option Timestamp) : Row :=
  let r := fst rd in
  let date := snd rd in
  {| artist_name := raw_artist_name r;
     artist_genres := raw_artist_genres r;
     track_popularity := raw_track_popularity r;
     artist_popularity := raw_artist_popularity r;
     artist_followers := raw_artist_followers r;
     track_duration_min := raw_track_duration_min r;
     album_total_tracks := raw_album_total_tracks r;
     album_release_date := date;
     duration_in_minutes := raw_track_duration_min r;
     popularity_category := cut (raw_track_popularity r) bins labels;
     release_year := dt_year date |}.

(** The frame after lines 8 to 12: read, rows without an artist name
    dropped, missing genres filled. *)
Definition clean_rows (file : list CsvRow) : list RawRow :=
  fillna_artist_genres (dropna_artist_name (read_csv file)).

Section Load.

Variable parse : option string -> string -> option Timestamp.

Definition load_and_preprocess_data (file : list CsvRow)
  : result (list Row) :=
  let df := read_csv file in
  let df := dropna_artist_name df in
  let df := fillna_artist_genres df in
  dates <- to_datetime parse (map raw_album_release_date df) ;;
  Ok (map derive_row (combine df dates)).

End Load.

(** *** Vocabulary for the statements about loading *)

(** The cell from which the format of the release dates is guessed. *)
Definition date_seed (file : list CsvRow) : option string :=
  first_non_null (map raw_album_release_date (clean_rows file)).

(** A line is retained when its artist cell is not a missing-value marker
    (the empty cell is one of the markers). *)
Definition retained (line : CsvRow) : bool :=
  negb (is_na_cell (csv_artist_name line)).

(** A release date that is present and that the parser rejects. *)
Definition unparseable (parse : option string -> string -> option Timestamp)
  (seed : option string) (cell : option string) : Prop :=
  exists s, cell = Some s /\ parse seed s = None.

(** The output row [r] is the input line [line]: same artist, same
    numbers, the genre cell read and filled. *)
Definition same_record (line : CsvRow) (r : Row) : Prop :=
  artist_name r = Some (csv_artist_name line)
  /\ artist_genres r = fillna "unknown" (read_cell (csv_artist_genres line))
  /\ track_popularity r = csv_track_popularity line
  /\ artist_popularity r = csv_artist_popularity line
  /\ artist_followers r = csv_artist_followers line
  /\ track_duration_min r = csv_track_duration_min line
  /\ album_total_tracks r = csv_album_total_tracks line.

(** The release date of an output row, against the date cell it comes
    from: a present cell is parsed, a missing one gives NaT. *)
Definition date_converted (parse : option string -> string -> option Timestamp)
  (seed : option string) (line : CsvRow) (r : Row) : Prop :=
  match read_cell (csv_album_release_date line) with
  | Some s => exists t, parse seed s = Some t /\ album_release_date r = Some t
                        /\ release_year r = Some (year t)
  | None => album_release_date r = None /\ release_year r = None
  end.

(** ** The summary views *)

Definition get_top_artists (df : list Row) (n : Z) : Series string :=
  head n
    (sort_values_desc
       (groupby_mean string_dec String.leb artist_name track_popularity df)).

Definition with_genres (r : Row) (g : option string) : Row :=
  {| artist_name := artist_name r;
     artist_genres := g;
     track_popularity := track_popularity r;
     artist_popularity := artist_popularity r;
     artist_followers := artist_followers r;
     track_duration_min := track_duration_min r;
     album_total_tracks := album_total_tracks r;
     album_release_date := album_release_date r;
     duration_in_minutes := duration_in_minutes r;
     popularity_category := popularity_category r;
     release_year := release_year r |}.

(** The genre tokens of a row: [str.split(', ')] of the genre cell. *)
Definition genre_tokens (r : Row) : option (list string) :=
  option_map (split ", ") (artist_genres r).

(** [df.assign(artist_genres=...str.split(', ')).explode('artist_genres')]:
    one copy of the row per token, in order; a row with a NaN genre cell
    stays as it is. *)
Definition explode_genres (df : list Row) : list Row :=
  flat_map (fun r =>
              match genre_tokens r with
              | Some tokens => map (fun g => with_genres r (Some g)) tokens
              | None => [r]
              end) df.

(** The text [s] holds the delimiter: a comma followed by a space. *)
Definition has_separator (s : string) : Prop :=
  exists p q : string, s = p ++ ", " ++ q.

(** The number of rows a row explodes into. *)
Definition genre_count (r : Row) : nat :=
  match genre_tokens r with
  | Some tokens => List.length tokens
  | None => 1
  end.

(** [get_popularity_by_genre] on the rows of a frame whose genre column
    is a column of strings (dtype object), as it is in every frame that
    holds a genre text; [get_popularity_by_genre_df] below is the function
    on a frame of either dtype. *)
Definition get_popularity_by_genre (df : list Row) : Series string :=
  sort_values_desc
    (groupby_mean string_dec String.leb artist_genres track_popularity
       (explode_genres df)).

(** A frame with the dtype of its [artist_genres] column. In a frame of
    dtype [float64] no row holds a genre text. The load leaves the column
    [float64] only when the file has lines, the genre cell of every line is
    missing and no line is retained: with a retained line,
    [fillna('unknown')] makes it a column of strings. *)
Record DataFrame : Type := mkDataFrame
  { genres_dtype : dtype;
    frame_rows : list Row }.

(** [get_popularity_by_genre]: [df['artist_genres'].str] first, which
    raises on a genre column that is not of strings. *)
Definition get_popularity_by_genre_df (df : DataFrame)
  : result (Series string) :=
  bind (str_accessor (genres_dtype df))
    (fun _ => Ok (get_popularity_by_genre (frame_rows df))).

Definition numerical_cols : list (Row -> Q) :=
  [ track_popularity; artist_popularity; artist_followers;
    track_duration_min; album_total_tracks ].

Definition get_correlation_matrix (df : list Row) : list (list (option R)) :=
  nancorr (map (fun col => map col df) numerical_cols).

(** The entry of a matrix at row [i], column [j]. *)
Definition entry (M : list (list (option R))) (i j : nat) : option R :=
  nth j (nth i M []) None.

Definition sumsq (xs : list Q) : Q := sum (map (fun x => x * x) xs).

(** The sum of the squared deviations from the mean, and the variance. *)
Definition ssd (xs : list Q) : Q :=
  sum (map (fun x => (x - mean xs) * (x - mean xs)) xs).

Definition variance (xs : list Q) : Q :=
  ssd xs / inject_Z (Z.of_nat (List.length xs)).

(** [processed_df.groupby('release_year')['track_popularity'].mean()
    .reset_index()] *)
Definition popularity_by_year (df : list Row) : list (Z * Q) :=
  groupby_mean Z.eq_dec Z.leb release_year track_popularity df.

(** ** A date parser for the examples *)

(** Calendar dates written [YYYY-MM-DD]; the format seed is not used. *)

Definition digit (c : ascii) : option Z :=
  let n := nat_of_ascii c in
  if (Nat.leb 48 n && Nat.leb n 57)%bool then Some (Z.of_nat (n - 48))
  else None.

Fixpoint number (acc : Z) (cs : list ascii) : option Z :=
  match cs with
  | [] => Some acc
  | c :: t =>
      match digit c with
      | Some d => number (10 * acc + d) t
      | None => None
      end
  end.

Definition is_leap (y : Z) : bool :=
  ((y mod 4 =? 0) && (negb (y mod 100 =? 0) || (y mod 400 =? 0)))%Z%bool.

Definition days_in_month (y m : Z) : Z :=
  (if (m =? 2) then (if is_leap y then 29 else 28)
   else if (m =? 4) || (m =? 6) || (m =? 9) || (m =? 11) then 30
   else 31)%Z%bool.

Definition iso_date (seed : option string) (s : string) : option Timestamp :=
  match list_ascii_of_string s with
  | [y1; y2; y3; y4; h1; m1; m2; h2; d1; d2] =>
      if (Ascii.eqb h1 "-" && Ascii.eqb h2 "-")%bool then
        match number 0 [y1; y2; y3; y4], number 0 [m1; m2], number 0 [d1; d2] with
        | Some y, Some m, Some d =>
            if ((1 <=? m) && (m <=? 12) && (1 <=? d)
                && (d <=? days_in_month y m) && (1 <=? y))%Z%bool
            then Some (mkTimestamp y m d)
            else None
        | _, _, _ => None
        end
      else None
  | _ => None
  end.

(** ** Sample data *)

Definition sample_line (artist genres : string) (popularity : Q)
  (date : string) : CsvRow :=
  mkCsvRow artist genres popularity 50 1000 3 10 date.

Definition sample_row (artist genres : string) (popularity : Q) (y : Z)
  : Row :=
  derive_row
    (mkRawRow (Some artist) (Some genres) popularity 50 1000 3 10 None,
     Some (mkTimestamp y 1 1)).

(** A row with the given artist, genre cell and track popularity, its
    other columns those of [rest]. *)
Definition track (artist genres : string) (popularity : Q) (rest : Row)
  : Row :=
  {| artist_name := Some artist;
     artist_genres := Some genres;
     track_popularity := popularity;
     artist_popularity := artist_popularity rest;
     artist_followers := artist_followers rest;
     track_duration_min := track_duration_min rest;
     album_total_tracks := album_total_tracks rest;
     album_release_date := album_release_date rest;
     duration_in_minutes := duration_in_minutes rest;
     popularity_category := popularity_category rest;
     release_year := release_year rest |}.

Definition two_tracks : list Row :=
  [sample_row "A" "Pop, Rock" 80 2020; sample_row "B" "Pop" 40 2021].

Definition line_80 : CsvRow := sample_line "A" "Pop" 80 "2020-01-01".
Definition line_101 : CsvRow := sample_line "A" "Pop" 101 "2020-01-01".
Definition line_150 : CsvRow := sample_line "A" "Pop" 150 "2020-01-01".
Definition line_no_artist : CsvRow := sample_line "" "Rock" 30 "2019-05-17".
Definition line_no_date : CsvRow := sample_line "B" "Pop" 40 "".
Definition line_bad_date : CsvRow := sample_line "C" "Jazz" 60 "2020-02-30".
Definition line_dropped_bad_date : CsvRow := sample_line "NA" "Jazz" 60 "soon".

(** ** Further vocabulary *)

(** The position of a category in [labels]. *)
Definition category_rank (c : Category) : nat :=
  match c with
  | Low => 0
  | Medium => 1
  | High => 2
  | VeryHigh => 3
  end.

(** [get_popularity_by_genre(processed_df).head(10)], the genre table of
    the dashboard. *)
Definition top_genres (df : list Row) : Series string :=
  head 10 (get_popularity_by_genre df).

(** 1 when the row [r] is in the group of key [k], 0 otherwise. *)
Definition in_group {Row K : Type} (eq_dec : forall a b : K, {a = b} + {a <> b})
  (key : Row -> option K) (k : K) (r : Row) : nat :=
  if has_key eq_dec key k r then 1 else 0.

(** Two rows that differ at most in their genre cell. *)
Definition same_but_genres (r r' : Row) : Prop :=
  with_genres r' (artist_genres r) = r.

Definition line_30 : CsvRow := sample_line "D" "Rock" 30 "2019-01-01".
Definition line_no_genres : CsvRow := sample_line "E" "" 55 "2018-03-01".

(** * Properties *)

(** ** The error monad *)

Lemma mapM_Ok {A B : Type} (f : A -> result B) (l : list A) (out : list B) :
  mapM f l = Ok out -> Forall2 (fun a b => f a = Ok b) l out.
Proof.
  revert out. induction l as [|a t IH]; intros out H; simpl in H.
  - injection H as <-. constructor.
  - destruct (f a) as [b|e] eqn:Ha; simpl in H; [|discriminate].
    destruct (mapM f t) as [bs|e] eqn:Ht; simpl in H; [|discriminate].
    injection H as <-. constructor; auto.
Qed.

Lemma mapM_Raise {A B : Type} (f : A -> result B) (l : list A) (e : exn) :
  mapM f l = Raise e -> Exists (fun a => f a = Raise e) l.
Proof.
  induction l as [|a t IH]; intros H; simpl in H; [discriminate|].
  destruct (f a) as [b|e'] eqn:Ha; simpl in H.
  - destruct (mapM f t) as [bs|e''] eqn:Ht; simpl in H; [discriminate|].
    injection H as <-. apply Exists_cons_tl. auto.
  - injection H as <-. apply Exists_cons_hd. exact Ha.
Qed.

Lemma Forall2_map_l {A B C : Type} (g : A -> B) (P : B -> C -> Prop) l l' :
  Forall2 P (map g l) l' <-> Forall2 (fun a c => P (g a) c) l l'.
Proof.
  revert l'. induction l as [|a t IH]; intros l'; simpl; split; intros H;
    inversion H; subst; constructor; auto; now apply IH.
Qed.

Lemma Forall2_map_combine {A B C : Type} (h : A * B -> C) (P : A -> B -> Prop)
  (l : list A) (l' : list B) :
  Forall2 P l l' ->
  Forall2 (fun a c => exists b, P a b /\ c = h (a, b)) l (map h (combine l l')).
Proof.
  induction 1; simpl; constructor; eauto.
Qed.

Lemma Forall2_weaken {A B : Type} (P Q : A -> B -> Prop) l l' :
  (forall a b, P a b -> Q a b) -> Forall2 P l l' -> Forall2 Q l l'.
Proof. intros HPQ; induction 1; constructor; auto. Qed.

Lemma Forall2_and_l {A B : Type} (Q : A -> Prop) (P : A -> B -> Prop) l l' :
  Forall Q l -> Forall2 P l l' -> Forall2 (fun a b => Q a /\ P a b) l l'.
Proof.
  intros HQ H. induction H; inversion HQ; subst; constructor; auto.
Qed.

(** ** Reading and cleaning *)

Lemma is_na_cell_empty : is_na_cell "" = true.
Proof. reflexivity. Qed.

Lemma notna_read_cell (cell : string) :
  notna (read_cell cell) = negb (is_na_cell cell).
Proof. unfold read_cell. now destruct (is_na_cell cell). Qed.

Lemma read_cell_retained (line : CsvRow) :
  retained line = true ->
  read_cell (csv_artist_name line) = Some (csv_artist_name line).
Proof.
  unfold retained, read_cell. now destruct (is_na_cell (csv_artist_name line)).
Qed.

(** The cleaned frame is the retained lines, in order, each read and its
    genre cell filled. *)
Lemma clean_rows_filter (file : list CsvRow) :
  clean_rows file = map (fun line => fill_genres (read_row line)) (filter retained file).
Proof.
  unfold clean_rows, fillna_artist_genres, dropna_artist_name, read_csv.
  induction file as [|line t IH]; simpl; [reflexivity|].
  unfold retained at 1. rewrite <- notna_read_cell.
  change (raw_artist_name (read_row line)) with (read_cell (csv_artist_name line)).
  destruct (notna (read_cell (csv_artist_name line))); simpl; now rewrite IH.
Qed.

Section LoadFacts.

Variable parse : option string -> string -> option Timestamp.

Lemma to_datetime_cell_Ok seed cell d :
  to_datetime_cell parse seed cell = Ok d ->
  match cell with
  | Some s => exists t, parse seed s = Some t /\ d = Some t
  | None => d = None
  end.
Proof.
  destruct cell as [s|]; simpl.
  - destruct (parse seed s) as [t|]; [|discriminate].
    intros H; injection H as <-. eauto.
  - intros H; now injection H as <-.
Qed.

Lemma to_datetime_cell_Raise seed cell e :
  to_datetime_cell parse seed cell = Raise e ->
  e = DateParseError /\ unparseable parse seed cell.
Proof.
  destruct cell as [s|]; simpl; [|discriminate].
  destruct (parse seed s) as [t|] eqn:Hp; [discriminate|].
  intros H; injection H as <-. split; [reflexivity|]. now exists s.
Qed.

(** A successful load: one output row per retained line, in order. *)
Lemma load_Ok (file : list CsvRow) (out : list Row) :
  load_and_preprocess_data parse file = Ok out ->
  Forall2 (fun line r =>
             retained line = true
             /\ exists d,
                 to_datetime_cell parse (date_seed file)
                   (read_cell (csv_album_release_date line)) = Ok d
                 /\ r = derive_row (fill_genres (read_row line), d))
    (filter retained file) out.
Proof.
  unfold load_and_preprocess_data.
  change (fillna_artist_genres (dropna_artist_name (read_csv file)))
    with (clean_rows file).
  destruct (to_datetime parse (map raw_album_release_date (clean_rows file)))
    as [dates|e] eqn:Hd; simpl; [|discriminate].
  intros H; injection H as <-.
  apply mapM_Ok in Hd. apply Forall2_map_l in Hd.
  apply (Forall2_map_combine derive_row) in Hd.
  fold (date_seed file) in Hd.
  rewrite clean_rows_filter in Hd at 1 2.
  apply Forall2_map_l in Hd.
  rewrite <- clean_rows_filter in Hd.
  apply Forall2_and_l; [|exact Hd].
  apply Forall_forall. intros line Hin. now apply filter_In in Hin.
Qed.

(** A failed load: the exception is the parser's, on the release date
    of a retained line. *)
Lemma load_Raise (file : list CsvRow) (e : exn) :
  load_and_preprocess_data parse file = Raise e ->
  e = DateParseError
  /\ Exists (fun line =>
               unparseable parse (date_seed file)
                 (read_cell (csv_album_release_date line)))
       (filter retained file).
Proof.
  unfold load_and_preprocess_data.
  change (fillna_artist_genres (dropna_artist_name (read_csv file)))
    with (clean_rows file).
  destruct (to_datetime parse (map raw_album_release_date (clean_rows file)))
    as [dates|e'] eqn:Hd; simpl; [discriminate|].
  intros H; injection H as <-.
  apply mapM_Raise in Hd. fold (date_seed file) in Hd.
  rewrite clean_rows_filter in Hd at 1.
  rewrite map_map in Hd. apply Exists_exists in Hd.
  destruct Hd as (c & Hin & Hc). apply in_map_iff in Hin.
  destruct Hin as (line & <- & Hin).
  apply to_datetime_cell_Raise in Hc. destruct Hc as [-> Hu].
  split; [reflexivity|]. apply Exists_exists. exists line. split; assumption.
Qed.

End LoadFacts.

(** ** Binning *)

Lemma Qle_bool_false (a b : Q) : Qle_bool a b = false -> b < a.
Proof.
  intros H. apply Qnot_le_lt. intros Hle.
  apply Qle_bool_iff in Hle. congruence.
Qed.

Ltac edge b p :=
  let E := fresh "E" in
  destruct (Qle_bool b p) eqn:E;
  [apply Qle_bool_iff in E | apply Qle_bool_false in E].

(** [cut] on the bins of the script, interval by interval. *)
Lemma cut_bins (p : Q) :
  (p < 0 -> cut p bins labels = None)
  /\ (0 <= p < 25 -> cut p bins labels = Some Low)
  /\ (25 <= p < 50 -> cut p bins labels = Some Medium)
  /\ (50 <= p < 75 -> cut p bins labels = Some High)
  /\ (75 <= p < 100 -> cut p bins labels = Some VeryHigh)
  /\ (100 <= p -> cut p bins labels = None).
Proof.
  unfold cut, bins, labels; simpl.
  edge 0 p; [edge 25 p; [edge 50 p; [edge 75 p; [edge 100 p|]|]|]|];
    simpl; repeat split; intros; try reflexivity; exfalso; lra.
Qed.

Lemma derive_row_category (rd : RawRow * option Timestamp) :
  popularity_category (derive_row rd)
  = cut (track_popularity (derive_row rd)) bins labels.
Proof. reflexivity. Qed.

Lemma Forall2_In_r {A B : Type} (P : A -> B -> Prop) l l' b :
  Forall2 P l l' -> In b l' -> exists a, In a l /\ P a b.
Proof.
  induction 1 as [|a' b' l l' Hab _ IH]; simpl; [tauto|].
  intros [<-|Hin]; [eauto|]. destruct (IH Hin) as (a & ? & ?). eauto.
Qed.

Lemma Forall2_Forall_r {A B : Type} (P : A -> B -> Prop) (Q : B -> Prop) l l' :
  Forall2 P l l' -> (forall a b, P a b -> Q b) -> Forall Q l'.
Proof. induction 1; intros HPQ; constructor; eauto. Qed.

Lemma loaded_category parse file out r :
  load_and_preprocess_data parse file = Ok out -> In r out ->
  popularity_category r = cut (track_popularity r) bins labels.
Proof.
  intros Hload Hin. apply load_Ok in Hload.
  destruct (Forall2_In_r _ _ _ _ Hload Hin) as (line & _ & _ & d & _ & ->).
  apply derive_row_category.
Qed.

(** C1 (as amended). Every record of a loaded frame gets its popularity
    category from the half-open bins [0,25) -> Low, [25,50) -> Medium,
    [50,75) -> High, [75,100) -> Very High; a track popularity above 100
    falls in no bin and gets no category. *)
Theorem popularity_category_bins parse file out r :
  load_and_preprocess_data parse file = Ok out ->
  In r out ->
  (0 <= track_popularity r < 25 -> popularity_category r = Some Low)
  /\ (25 <= track_popularity r < 50 -> popularity_category r = Some Medium)
  /\ (50 <= track_popularity r < 75 -> popularity_category r = Some High)
  /\ (75 <= track_popularity r < 100 -> popularity_category r = Some VeryHigh)
  /\ (100 < track_popularity r -> popularity_category r = None).
Proof.
  intros Hload Hin. rewrite (loaded_category _ _ _ _ Hload Hin).
  destruct (cut_bins (track_popularity r)) as (_ & H1 & H2 & H3 & H4 & H5).
  repeat split; try assumption.
  intros H. apply H5. lra.
Qed.

(** C1, counterexample. A track popularity of 101 is not put in the final
    bin: the record has no category. *)
Lemma popularity_101_uncategorised :
  exists r,
    load_and_preprocess_data iso_date [line_101] = Ok [r]
    /\ track_popularity r = 101
    /\ popularity_category r = None
    /\ popularity_category r <> Some VeryHigh.
Proof.
  eexists. split; [vm_compute; reflexivity|].
  repeat split. discriminate.
Qed.

Lemma popularity_category_bins_witness :
  load_and_preprocess_data iso_date [line_80] = Ok [sample_row "A" "Pop" 80 2020]
  /\ In (sample_row "A" "Pop" 80 2020) [sample_row "A" "Pop" 80 2020]
  /\ popularity_category (sample_row "A" "Pop" 80 2020) = Some VeryHigh.
Proof.
  assert (Hload : load_and_preprocess_data iso_date [line_80]
                  = Ok [sample_row "A" "Pop" 80 2020]) by (vm_compute; reflexivity).
  assert (Hin : In (sample_row "A" "Pop" 80 2020) [sample_row "A" "Pop" 80 2020])
    by (left; reflexivity).
  split; [exact Hload|]. split; [exact Hin|].
  destruct (popularity_category_bins iso_date _ _ _ Hload Hin)
    as (_ & _ & _ & H & _).
  apply H. vm_compute. split; [intros E; discriminate E|reflexivity].
Defined.

(** ** Failures of the load *)

(** C2 (as amended). No track popularity makes the derivation fail: the
    load fails only on an unparseable release date of a retained line. When
    it succeeds every retained line is in the output with its track
    popularity, and a record whose track popularity lies outside [0,100]
    has no popularity category. *)
Theorem out_of_range_popularity_uncategorised parse file :
  match load_and_preprocess_data parse file with
  | Ok out =>
      map track_popularity out = map csv_track_popularity (filter retained file)
      /\ Forall (fun r =>
                   track_popularity r < 0 \/ 100 < track_popularity r ->
                   popularity_category r = None) out
  | Raise e =>
      e = DateParseError
      /\ Exists (fun line =>
                   unparseable parse (date_seed file)
                     (read_cell (csv_album_release_date line)))
           (filter retained file)
  end.
Proof.
  destruct (load_and_preprocess_data parse file) as [out|e] eqn:Hload.
  - split.
    + apply load_Ok in Hload. induction Hload as [|line r l l' (_ & d & _ & ->) _ IH].
      * reflexivity.
      * simpl. now rewrite IH.
    + apply Forall_forall. intros r Hin Hp.
      rewrite (loaded_category _ _ _ _ Hload Hin).
      destruct (cut_bins (track_popularity r)) as (H0 & _ & _ & _ & _ & H5).
      destruct Hp as [Hp|Hp]; [now apply H0|apply H5; lra].
  - now apply load_Raise.
Qed.

(** C2, counterexample. A record with track popularity 150 does not make
    the load fail: the frame is returned, the record in it. *)
Lemma popularity_150_no_failure :
  exists r,
    load_and_preprocess_data iso_date [line_150] = Ok [r]
    /\ track_popularity r = 150
    /\ popularity_category r = None.
Proof.
  eexists. split; [vm_compute; reflexivity|]. split; reflexivity.
Qed.

(** C7. The load keeps exactly the lines whose artist cell is not a
    missing-value marker, the empty cell being one of them: the output
    rows are the retained lines, in order and unchanged. Dropping raises
    nothing: a failure comes from the release date of a retained line. The
    output is shorter than the input by the number of lines dropped, so by
    one when exactly one line lacks its artist name. *)
Theorem clean_drops_missing_artist parse file :
  is_na_cell "" = true
  /\ match load_and_preprocess_data parse file with
     | Ok out =>
         Forall2 same_record (filter retained file) out
         /\ Forall (fun r => exists name,
                        artist_name r = Some name /\ is_na_cell name = false) out
         /\ (List.length out
             + List.length (filter (fun line => is_na_cell (csv_artist_name line)) file)
             = List.length file)%nat
         /\ (List.length (filter (fun line => is_na_cell (csv_artist_name line)) file) = 1%nat
             -> List.length out = (List.length file - 1)%nat)
     | Raise e =>
         Exists (fun line =>
                   unparseable parse (date_seed file)
                     (read_cell (csv_album_release_date line)))
           (filter retained file)
     end.
Proof.
  split; [exact is_na_cell_empty|].
  destruct (load_and_preprocess_data parse file) as [out|e] eqn:Hload.
  - apply load_Ok in Hload.
    assert (Hsame : Forall2 same_record (filter retained file) out).
    { eapply Forall2_weaken; [|exact Hload].
      intros line r (Hret & d & _ & ->). unfold same_record; simpl.
      repeat split. now apply read_cell_retained. }
    assert (Hlen : (List.length out
             + List.length (filter (fun line => is_na_cell (csv_artist_name line)) file)
             = List.length file)%nat).
    { rewrite <- (Forall2_length Hload).
      clear. induction file as [|line t IH]; simpl; [reflexivity|].
      unfold retained at 1.
      destruct (is_na_cell (csv_artist_name line)); simpl; lia. }
    split; [exact Hsame|]. split; [|split; [exact Hlen|lia]].
    eapply Forall2_Forall_r; [exact Hload|].
    intros line r (Hret & d & _ & ->). exists (csv_artist_name line).
    split; [now apply read_cell_retained|].
    unfold retained in Hret. now destruct (is_na_cell (csv_artist_name line)).
  - now apply load_Raise in Hload.
Qed.

Lemma Exists_Forall2_l {A B : Type} (P : A -> Prop) (R : A -> B -> Prop) l l' :
  Exists P l -> Forall2 R l l' -> exists a b, P a /\ R a b.
Proof.
  intros HE H. induction H as [|a b l l' Hab _ IH]; inversion HE; subst; eauto.
Qed.

(** C8 (as amended). The load fails, with the parser's exception and no
    frame at all, exactly when some retained line has a release date that
    is present and cannot be parsed. Otherwise it succeeds: a retained line
    with a release date has it parsed in the output, with its year; a
    retained line whose release date is missing is kept, its date and its
    release year undefined. *)
Theorem malformed_date_fails_missing_date_kept parse file :
  (Exists (fun line =>
             unparseable parse (date_seed file)
               (read_cell (csv_album_release_date line)))
     (filter retained file)
   <-> load_and_preprocess_data parse file = Raise DateParseError)
  /\ match load_and_preprocess_data parse file with
     | Ok out =>
         Forall2 (date_converted parse (date_seed file)) (filter retained file) out
     | Raise e => e = DateParseError
     end.
Proof.
  assert (Hconv : forall out, load_and_preprocess_data parse file = Ok out ->
            Forall2 (date_converted parse (date_seed file)) (filter retained file) out).
  { intros out Hload. apply load_Ok in Hload.
    eapply Forall2_weaken; [|exact Hload].
    intros line r (_ & d & Hd & ->). unfold date_converted.
    apply to_datetime_cell_Ok in Hd.
    destruct (read_cell (csv_album_release_date line)) as [s|].
    - destruct Hd as (t & Hp & ->). exists t. repeat split; assumption.
    - subst d. split; reflexivity. }
  split.
  - split.
    + intros HE.
      destruct (load_and_preprocess_data parse file) as [out|e] eqn:Hload.
      * exfalso. specialize (Hconv out eq_refl).
        destruct (Exists_Forall2_l _ _ _ _ HE Hconv) as (line & r & (s & Hs & Hp) & Hc).
        unfold date_converted in Hc. rewrite Hs in Hc.
        destruct Hc as (t & Ht & _). congruence.
      * apply load_Raise in Hload. now destruct Hload as (-> & _).
    + intros Hload. now apply load_Raise in Hload.
  - destruct (load_and_preprocess_data parse file) as [out|e] eqn:Hload.
    + now apply Hconv.
    + now apply load_Raise in Hload.
Qed.

(** C8, counterexample. A retained record whose release date is missing
    does not make the load fail, and it comes out with no date. *)
Lemma missing_date_no_failure :
  exists r,
    load_and_preprocess_data iso_date [line_no_date] = Ok [r]
    /\ album_release_date r = None
    /\ release_year r = None.
Proof.
  eexists. split; [vm_compute; reflexivity|]. split; reflexivity.
Qed.

(** ** Sorting *)

Section SortFacts.

Context {A : Type}.
Variable leb : A -> A -> bool.

Lemma insert_sorted_perm (x : A) (l : list A) :
  Permutation (insert_sorted leb x l) (x :: l).
Proof.
  induction l as [|y t IH]; simpl; [reflexivity|].
  destruct (leb x y); [reflexivity|].
  rewrite IH. apply perm_swap.
Qed.

Lemma sort_perm (l : list A) : Permutation (sort leb l) l.
Proof.
  induction l as [|x t IH]; simpl; [reflexivity|].
  rewrite insert_sorted_perm. now constructor.
Qed.

Hypothesis leb_total : forall a b, leb a b = true \/ leb b a = true.

Lemma insert_sorted_HdRel (a x : A) (l : list A) :
  leb a x = true ->
  HdRel (fun u v => leb u v = true) a l ->
  HdRel (fun u v => leb u v = true) a (insert_sorted leb x l).
Proof.
  intros Hax Hal. destruct l as [|y t]; simpl.
  - now constructor.
  - destruct (leb x y); constructor; [assumption|now inversion Hal].
Qed.

Lemma insert_sorted_Sorted (x : A) (l : list A) :
  Sorted (fun u v => leb u v = true) l ->
  Sorted (fun u v => leb u v = true) (insert_sorted leb x l).
Proof.
  induction 1 as [|y t Ht IH Hy]; simpl.
  - repeat constructor.
  - destruct (leb x y) eqn:Hxy.
    + repeat constructor; assumption.
    + constructor; [exact IH|].
      apply insert_sorted_HdRel; [|exact Hy].
      destruct (leb_total x y); congruence.
Qed.

Lemma sort_Sorted (l : list A) : Sorted (fun u v => leb u v = true) (sort leb l).
Proof.
  induction l as [|x t IH]; simpl; [constructor|].
  now apply insert_sorted_Sorted.
Qed.

End SortFacts.

Lemma Sorted_weaken {A : Type} (R R' : A -> A -> Prop) (l : list A) :
  (forall a b, R a b -> R' a b) -> Sorted R l -> Sorted R' l.
Proof.
  intros HR. induction 1 as [|a l H IH Hhd]; constructor; [assumption|].
  destruct Hhd; constructor; auto.
Qed.

Lemma StronglySorted_app {A : Type} (R : A -> A -> Prop) (l1 l2 : list A) :
  StronglySorted R l1 -> StronglySorted R l2 ->
  (forall x y, In x l1 -> In y l2 -> R x y) ->
  StronglySorted R (l1 ++ l2).
Proof.
  induction 1 as [|a l1 H1 IH Ha]; intros H2 H12; simpl; [assumption|].
  constructor.
  - apply IH; [assumption|]. intros; apply H12; simpl; auto.
  - apply Forall_app. split; [assumption|].
    apply Forall_forall. intros y Hy. apply H12; simpl; auto.
Qed.

Lemma StronglySorted_app_inv {A : Type} (R : A -> A -> Prop) (l1 l2 : list A) :
  StronglySorted R (l1 ++ l2) ->
  forall x y, In x l1 -> In y l2 -> R x y.
Proof.
  induction l1 as [|a l1 IH]; simpl; intros H x y Hx Hy; [contradiction|].
  inversion H as [|? ? Hs Ha]; subst. destruct Hx as [<-|Hx].
  - rewrite Forall_forall in Ha. apply Ha, in_or_app. now right.
  - now apply IH.
Qed.

Lemma StronglySorted_rev {A : Type} (R : A -> A -> Prop) (l : list A) :
  StronglySorted R l -> StronglySorted (fun a b => R b a) (rev l).
Proof.
  induction 1 as [|a l H IH Ha]; simpl; [constructor|].
  apply StronglySorted_app; [assumption|repeat constructor|].
  intros x y Hx [<-|[]]. apply in_rev in Hx.
  rewrite Forall_forall in Ha. now apply Ha.
Qed.

Lemma StronglySorted_firstn {A : Type} (R : A -> A -> Prop) (k : nat) (l : list A) :
  StronglySorted R l -> StronglySorted R (firstn k l).
Proof.
  intros H. revert k. induction H as [|a l H IH Ha]; intros [|k]; simpl;
    try constructor; [apply IH|].
  rewrite Forall_forall in *. intros x Hx. apply Ha.
  rewrite <- (firstn_skipn k l). apply in_or_app. now left.
Qed.

Lemma NoDup_firstn_map {A B : Type} (f : A -> B) (k : nat) (l : list A) :
  NoDup (map f l) -> NoDup (map f (firstn k l)).
Proof.
  revert k. induction l as [|a l IH]; intros [|k] H; simpl; try constructor.
  - inversion H as [|? ? Hnin Hnd]; subst. intros Hin. apply Hnin.
    apply in_map_iff in Hin. destruct Hin as (x & Hx & Hin).
    apply in_map_iff. exists x. split; [assumption|].
    rewrite <- (firstn_skipn k l). apply in_or_app. now left.
  - inversion H; subst. now apply IH.
Qed.

(** [sort_values(ascending=False)] returns the same entries, the larger
    values first. *)
Lemma sort_values_desc_perm {K : Type} (s : Series K) :
  Permutation (sort_values_desc s) s.
Proof.
  unfold sort_values_desc. rewrite <- Permutation_rev, sort_perm.
  symmetry. apply Permutation_rev.
Qed.

Lemma sort_values_desc_sorted {K : Type} (s : Series K) :
  StronglySorted (fun a b => snd b <= snd a) (sort_values_desc s).
Proof.
  unfold sort_values_desc.
  apply (StronglySorted_rev (fun a b : K * Q => snd a <= snd b)).
  apply Sorted_StronglySorted.
  - intros a b c Hab Hbc. eapply Qle_trans; eassumption.
  - apply (Sorted_weaken (fun a b : K * Q => value_leb a b = true)).
    + intros a b Hab. now apply Qle_bool_iff.
    + apply sort_Sorted. intros a b. unfold value_leb.
      rewrite !Qle_bool_iff.
      destruct (Qlt_le_dec (snd b) (snd a)); [right; now apply Qlt_le_weak|now left].
Qed.

Lemma head_firstn {A : Type} (n : Z) (l : list A) :
  exists k, head n l = firstn k l /\ ((0 <= n)%Z -> k = Z.to_nat n).
Proof.
  unfold head. destruct (0 <=? n)%Z eqn:E.
  - eexists; split; [reflexivity|reflexivity].
  - eexists; split; [reflexivity|]. apply Z.leb_gt in E. lia.
Qed.

(** ** Grouping *)

Lemma In_omap {A B : Type} (f : A -> option B) (l : list A) (b : B) :
  In b (omap f l) <-> exists a, In a l /\ f a = Some b.
Proof.
  induction l as [|a t IH]; simpl.
  - split; [tauto|]. now intros (a & [] & _).
  - destruct (f a) as [b'|] eqn:Ha; simpl; rewrite IH; split.
    + intros [<-|(x & Hx & Hfx)]; eauto.
    + intros (x & [<-|Hx] & Hfx); [left; congruence|eauto].
    + intros (x & Hx & Hfx); eauto.
    + intros (x & [<-|Hx] & Hfx); [congruence|eauto].
Qed.

Section GroupByFacts.

Context {Row K : Type}.
Variable eq_dec : forall a b : K, {a = b} + {a <> b}.
Variable leb : K -> K -> bool.
Variable key : Row -> option K.
Variable value : Row -> Q.

Lemma group_keys_perm (df : list Row) :
  Permutation (group_keys eq_dec leb key df) (nodup eq_dec (omap key df)).
Proof. apply sort_perm. Qed.

Lemma group_keys_NoDup (df : list Row) : NoDup (group_keys eq_dec leb key df).
Proof.
  eapply Permutation_NoDup; [symmetry; apply group_keys_perm|apply NoDup_nodup].
Qed.

Lemma group_keys_In (df : list Row) (k : K) :
  In k (group_keys eq_dec leb key df) <-> exists r, In r df /\ key r = Some k.
Proof.
  rewrite <- In_omap. split; intros H.
  - apply (nodup_In eq_dec).
    eapply Permutation_in; [apply group_keys_perm|exact H].
  - eapply Permutation_in; [symmetry; apply group_keys_perm|].
    now apply nodup_In.
Qed.

Lemma groupby_mean_keys (df : list Row) :
  map fst (groupby_mean eq_dec leb key value df) = group_keys eq_dec leb key df.
Proof.
  unfold groupby_mean. rewrite map_map. simpl. apply map_id.
Qed.

Lemma groupby_mean_In (df : list Row) (k : K) (m : Q) :
  In (k, m) (groupby_mean eq_dec leb key value df)
  <-> (exists r, In r df /\ key r = Some k)
      /\ m = mean (group_values eq_dec key value df k).
Proof.
  rewrite <- group_keys_In. unfold groupby_mean. rewrite in_map_iff. split.
  - intros (k' & Hk & Hin). injection Hk as -> <-. now split.
  - intros (Hin & ->). now exists k.
Qed.

(** The rows of a group are the rows that carry its key. *)
Lemma has_key_true (k : K) (r : Row) :
  has_key eq_dec key k r = true <-> key r = Some k.
Proof.
  unfold has_key. destruct (key r) as [k'|]; [|split; discriminate].
  destruct (eq_dec k' k); split; congruence.
Qed.

Hypothesis leb_total : forall a b, leb a b = true \/ leb b a = true.

Lemma group_keys_Sorted (df : list Row) :
  Sorted (fun a b => leb a b = true) (group_keys eq_dec leb key df).
Proof. now apply sort_Sorted. Qed.

End GroupByFacts.

(** ** The yearly trend *)

Lemma StronglySorted_le_lt (l : list Z) :
  StronglySorted Z.le l -> NoDup l -> StronglySorted Z.lt l.
Proof.
  induction 1 as [|a l H IH Ha]; intros Hnd; constructor;
    inversion Hnd as [|? ? Hnin Hnd']; subst.
  - now apply IH.
  - rewrite Forall_forall in *. intros x Hx.
    assert (a <> x) by (intros ->; contradiction).
    specialize (Ha x Hx). lia.
Qed.

(** C9. The yearly trend lists the release years in strictly ascending
    order, whatever the means are, with no year twice: one entry for each
    release year that occurs in the frame, holding the mean track
    popularity of the rows of that year. *)
Theorem popularity_by_year_ascending (df : list Row) :
  StronglySorted Z.lt (map fst (popularity_by_year df))
  /\ NoDup (map fst (popularity_by_year df))
  /\ (forall y, In y (map fst (popularity_by_year df))
                <-> exists r, In r df /\ release_year r = Some y)
  /\ (forall y m, In (y, m) (popularity_by_year df)
                  <-> (exists r, In r df /\ release_year r = Some y)
                      /\ m = mean (group_values Z.eq_dec release_year
                                     track_popularity df y))
  /\ popularity_by_year
       [sample_row "A" "Pop" 40 2021; sample_row "B" "Pop" 41 2019;
        sample_row "C" "Pop" 80 2020; sample_row "D" "Pop" 42 2019]
     = [(2019%Z, 83 # 2); (2020%Z, 80); (2021%Z, 40)].
Proof.
  unfold popularity_by_year. rewrite groupby_mean_keys.
  split; [|split; [|split; [|split]]].
  - apply StronglySorted_le_lt; [|apply group_keys_NoDup].
    apply Sorted_StronglySorted; [intros a b c; apply Z.le_trans|].
    apply (Sorted_weaken (fun a b => Z.leb a b = true)).
    + intros a b. apply Z.leb_le.
    + apply group_keys_Sorted. intros a b. rewrite !Z.leb_le. lia.
  - apply group_keys_NoDup.
  - intros y. apply group_keys_In.
  - intros y m. apply groupby_mean_In.
  - vm_compute. reflexivity.
Qed.

(** ** The top artists *)

(** C5. For [n >= 1], [get_top_artists df n] has at most [n] entries,
    no artist twice, the larger means first; each entry is an artist of
    the frame with the mean track popularity of that artist's rows; an
    artist left out has a mean no larger than those of the artists kept;
    and when [n] is at least the number of distinct artists, every artist
    is in the result. *)
Theorem top_artists_sorted_distinct (df : list Row) (n : Z) :
  (1 <= n)%Z ->
  (Z.of_nat (List.length (get_top_artists df n)) <= n)%Z
  /\ NoDup (map fst (get_top_artists df n))
  /\ StronglySorted (fun a b => snd b <= snd a) (get_top_artists df n)
  /\ (forall a m, In (a, m) (get_top_artists df n) ->
                  (exists r, In r df /\ artist_name r = Some a)
                  /\ m = mean (group_values string_dec artist_name
                                 track_popularity df a))
  /\ (forall e e',
         In e (get_top_artists df n) ->
         In e' (groupby_mean string_dec String.leb artist_name track_popularity df) ->
         ~ In e' (get_top_artists df n) ->
         snd e' <= snd e)
  /\ ((Z.of_nat (List.length (nodup string_dec (omap artist_name df))) <= n)%Z ->
      Permutation (map fst (get_top_artists df n))
        (nodup string_dec (omap artist_name df))).
Proof.
  intros Hn. unfold get_top_artists.
  set (means := groupby_mean string_dec String.leb artist_name track_popularity df).
  destruct (head_firstn n (sort_values_desc means)) as (k & -> & Hk).
  specialize (Hk ltac:(lia)). subst k.
  assert (Hperm : Permutation (map fst (sort_values_desc means))
                    (nodup string_dec (omap artist_name df))).
  { rewrite (Permutation_map fst (sort_values_desc_perm means)).
    unfold means. rewrite groupby_mean_keys. apply group_keys_perm. }
  split; [|split; [|split; [|split; [|split]]]].
  - pose proof (firstn_le_length (Z.to_nat n) (sort_values_desc means)). lia.
  - apply NoDup_firstn_map.
    eapply Permutation_NoDup; [symmetry; exact Hperm|apply NoDup_nodup].
  - apply StronglySorted_firstn, sort_values_desc_sorted.
  - intros a m Hin. apply (groupby_mean_In string_dec String.leb).
    fold means. eapply Permutation_in; [apply sort_values_desc_perm|].
    rewrite <- (firstn_skipn (Z.to_nat n) (sort_values_desc means)).
    apply in_or_app. now left.
  - intros e e' He He' Hout.
    pose proof (sort_values_desc_sorted means) as Hsorted.
    rewrite <- (firstn_skipn (Z.to_nat n) (sort_values_desc means)) in Hsorted.
    apply (StronglySorted_app_inv _ _ _ Hsorted); [exact He|].
    apply (Permutation_in _ (Permutation_sym (sort_values_desc_perm means))) in He'.
    rewrite <- (firstn_skipn (Z.to_nat n) (sort_values_desc means)) in He'.
    apply in_app_or in He'. destruct He' as [He'|He']; [contradiction|exact He'].
  - intros Hall. rewrite firstn_all2; [exact Hperm|].
    rewrite <- (length_map fst), (Permutation_length Hperm). lia.
Qed.

Lemma top_artists_sorted_distinct_witness :
  (1 <= 2)%Z
  /\ get_top_artists
       [sample_row "A" "Pop" 40 2021; sample_row "B" "Pop" 41 2019;
        sample_row "C" "Pop" 80 2020; sample_row "A" "Pop" 90 2019] 2
     = [("C", 80); ("A", 65)]
  /\ NoDup (map fst (get_top_artists
       [sample_row "A" "Pop" 40 2021; sample_row "B" "Pop" 41 2019;
        sample_row "C" "Pop" 80 2020; sample_row "A" "Pop" 90 2019] 2)).
Proof.
  split; [lia|]. split; [vm_compute; reflexivity|].
  apply (top_artists_sorted_distinct _ 2). lia.
Defined.

(** ** Empty frames *)

(** C3, counterexample. On the empty frame the correlation matrix is
    returned, not an error: five rows of five undefined entries. *)
Lemma correlation_of_empty_is_returned :
  get_correlation_matrix [] = repeat (repeat None 5) 5.
Proof. reflexivity. Qed.

(** C3 (as amended). On the empty frame the correlation matrix is the
    5 x 5 matrix of undefined (NaN) entries, returned without error; the
    top artists and the yearly trend are empty, without error; and the
    genre ranking is empty, without error, when the genre column of the
    empty frame is a column of strings (dtype object). *)
Theorem views_of_empty_frame :
  get_correlation_matrix [] = repeat (repeat None 5) 5
  /\ (forall n, get_top_artists [] n = [])
  /\ get_popularity_by_genre_df (mkDataFrame object []) = Ok []
  /\ popularity_by_year [] = [].
Proof.
  split; [reflexivity|]. split; [|split; reflexivity].
  intros n. unfold get_top_artists, head.
  destruct (0 <=? n)%Z; apply firstn_nil.
Qed.

(** ** The genre ranking *)

Lemma explode_genres_popularity (df : list Row) :
  map track_popularity (explode_genres df)
  = flat_map (fun r => repeat (track_popularity r) (genre_count r)) df.
Proof.
  unfold explode_genres. induction df as [|r t IH]; simpl; [reflexivity|].
  rewrite map_app, IH. f_equal. unfold genre_count.
  destruct (genre_tokens r) as [tokens|]; [|reflexivity].
  induction tokens as [|g ts IHts]; simpl; [reflexivity|]. now rewrite IHts.
Qed.

Lemma explode_genres_tokens (df : list Row) :
  omap artist_genres (explode_genres df)
  = flat_map (fun r => match genre_tokens r with
                       | Some tokens => tokens
                       | None => []
                       end) df.
Proof.
  assert (Happ : forall l1 l2 : list Row,
             omap artist_genres (l1 ++ l2)%list
             = (omap artist_genres l1 ++ omap artist_genres l2)%list).
  { induction l1 as [|a l1 IH]; intros l2; simpl; [reflexivity|].
    destruct (artist_genres a); simpl; now rewrite IH. }
  unfold explode_genres. induction df as [|r t IH]; simpl; [reflexivity|].
  rewrite Happ, IH. f_equal.
  destruct (genre_tokens r) as [tokens|] eqn:Ht.
  - clear. induction tokens as [|g ts IHts]; simpl; [reflexivity|]. now rewrite IHts.
  - unfold genre_tokens in Ht. simpl. destruct (artist_genres r); [discriminate|reflexivity].
Qed.

(** C4. The genre ranking explodes each row into one row per genre
    token, a repeated token counted each time; groups the exploded rows by
    token; takes the mean track popularity of each group; and lists the
    groups with the larger means first. On the two records (A, 80,
    "Pop, Rock") and (B, 40, "Pop") it returns Rock with mean 80, then Pop
    with mean 60. *)
Theorem genre_popularity_explodes_and_ranks :
  (forall df,
      map track_popularity (explode_genres df)
      = flat_map (fun r => repeat (track_popularity r) (genre_count r)) df
      /\ omap artist_genres (explode_genres df)
         = flat_map (fun r => match genre_tokens r with
                              | Some tokens => tokens
                              | None => []
                              end) df
      /\ StronglySorted (fun a b => snd b <= snd a) (get_popularity_by_genre df)
      /\ NoDup (map fst (get_popularity_by_genre df))
      /\ forall g m,
          In (g, m) (get_popularity_by_genre df)
          <-> (exists r, In r (explode_genres df) /\ artist_genres r = Some g)
              /\ m = mean (group_values string_dec artist_genres
                             track_popularity (explode_genres df) g))
  /\ (forall restA restB,
         get_popularity_by_genre
           [track "A" "Pop, Rock" 80 restA; track "B" "Pop" 40 restB]
         = [("Rock", 80); ("Pop", 60)])
  /\ (forall restA restB,
         get_popularity_by_genre
           [track "A" "Pop, Pop" 80 restA; track "B" "Pop" 20 restB]
         = [("Pop", 60)]).
Proof.
  split; [|split; intros; reflexivity].
  intros df. split; [apply explode_genres_popularity|].
  split; [apply explode_genres_tokens|].
  unfold get_popularity_by_genre.
  set (means := groupby_mean string_dec String.leb artist_genres
                  track_popularity (explode_genres df)).
  split; [apply sort_values_desc_sorted|]. split.
  - eapply Permutation_NoDup.
    + symmetry. apply Permutation_map, sort_values_desc_perm.
    + unfold means. rewrite groupby_mean_keys. apply group_keys_NoDup.
  - intros g m. rewrite <- (groupby_mean_In string_dec String.leb). fold means.
    split; apply Permutation_in; [|symmetry]; apply sort_values_desc_perm.
Qed.

(** ** Splitting the genre cell *)

Lemma append_empty_r (s : string) : s ++ "" = s.
Proof. induction s as [|c s IH]; simpl; [reflexivity|now rewrite IH]. Qed.

Lemma append_assoc (s1 s2 s3 : string) : (s1 ++ s2) ++ s3 = s1 ++ (s2 ++ s3).
Proof. induction s1 as [|c s1 IH]; simpl; [reflexivity|now rewrite IH]. Qed.

Lemma has_separator_tail (c : ascii) (s : string) :
  has_separator s -> has_separator (String c s).
Proof. intros (p & q & ->). now exists (String c p), q. Qed.

(** The delimiter is found at the head of a text exactly when the text
    starts with a comma and a space. *)
Lemma prefix_separator (s : string) :
  prefix ", " s = true <-> exists q, s = ", " ++ q.
Proof.
  split.
  - destruct s as [|c1 [|c2 q]]; cbn [prefix]; try discriminate.
    + destruct (ascii_dec "," c1); discriminate.
    + destruct (ascii_dec "," c1) as [<-|]; [|discriminate].
      destruct (ascii_dec " " c2) as [<-|]; [|discriminate].
      intros _. now exists q.
  - intros (q & ->). cbn [append prefix].
    destruct (ascii_dec "," ","); [|congruence].
    destruct (ascii_dec " " " "); [|congruence].
    now destruct q.
Qed.

Lemma prefix_separator_false (s : string) :
  ~ has_separator s -> prefix ", " s = false.
Proof.
  intros Hs. destruct (prefix ", " s) eqn:E; [|reflexivity].
  exfalso. apply Hs. apply prefix_separator in E.
  destruct E as (q & ->). now exists "", q.
Qed.

Lemma split_aux_step (cur : string) (c : ascii) (rest : string) :
  split_aux ", " 0 cur (String c rest)
  = if prefix ", " (String c rest)
    then cur :: split_aux ", " 1 "" rest
    else split_aux ", " 0 (cur ++ String c "") rest.
Proof. reflexivity. Qed.

Lemma split_aux_no_separator (s cur : string) :
  ~ has_separator s -> split_aux ", " 0 cur s = [cur ++ s].
Proof.
  revert cur. induction s as [|c s IH]; intros cur Hs.
  - simpl. now rewrite append_empty_r.
  - rewrite split_aux_step, (prefix_separator_false _ Hs), IH.
    + now rewrite append_assoc.
    + intros H. apply Hs. now apply has_separator_tail.
Qed.

Lemma split_aux_at_separator (t s cur : string) :
  ~ has_separator t ->
  split_aux ", " 0 cur (t ++ ", " ++ s) = (cur ++ t) :: split_aux ", " 0 "" s.
Proof.
  revert cur. induction t as [|c t IH]; intros cur Ht.
  - rewrite append_empty_r.
    change ("" ++ ", " ++ s) with (String "," (String " " s)).
    rewrite split_aux_step.
    replace (prefix ", " (String "," (String " " s))) with true; [reflexivity|].
    symmetry. apply prefix_separator. now exists s.
  - change (String c t ++ ", " ++ s) with (String c (t ++ ", " ++ s)).
    rewrite split_aux_step.
    destruct (prefix ", " (String c (t ++ ", " ++ s))) eqn:E.
    + exfalso. apply prefix_separator in E. destruct E as (q & E).
      cbn [append] in E. injection E as -> E.
      destruct t as [|c2 t]; cbn [append] in E; [discriminate|].
      injection E as -> _. apply Ht. now exists "", t.
    + rewrite IH.
      * now rewrite append_assoc.
      * intros H. apply Ht. now apply has_separator_tail.
Qed.

Lemma no_separator_Pop_Rock : ~ has_separator "Pop,Rock".
Proof.
  intros (p & q & H).
  do 8 (destruct p as [|? p]; cbn [append] in H; [discriminate|injection H as _ H]).
  destruct p; discriminate.
Qed.

(** ** Sums and means *)

Lemma sum_last (l : list Q) (x : Q) : sum (l ++ [x]) = sum l + x.
Proof. unfold sum. now rewrite fold_left_app. Qed.

Lemma sumsq_last (l : list Q) (x : Q) : sumsq (l ++ [x]) = sumsq l + x * x.
Proof. unfold sumsq. rewrite map_app. cbn [map]. now rewrite sum_last. Qed.

Lemma inject_Z_length_last {A : Type} (l : list A) (x : A) :
  inject_Z (Z.of_nat (List.length (l ++ [x])))
  == inject_Z (Z.of_nat (List.length l)) + 1.
Proof.
  rewrite length_app, Nat2Z.inj_add, inject_Z_plus. simpl. reflexivity.
Qed.

Lemma inject_Z_length_nonneg {A : Type} (l : list A) :
  0 <= inject_Z (Z.of_nat (List.length l)).
Proof.
  change 0 with (inject_Z 0). rewrite <- Zle_Qle. lia.
Qed.

Lemma mean_eq (xs : list Q) :
  mean xs == sum xs / inject_Z (Z.of_nat (List.length xs)).
Proof. unfold mean. apply Qred_correct. Qed.

(** The squared deviations from any centre [c], by the two moments. *)
Lemma sum_sq_dev (c : Q) (xs : list Q) :
  sum (map (fun x => (x - c) * (x - c)) xs)
  == sumsq xs - 2 * c * sum xs + inject_Z (Z.of_nat (List.length xs)) * c * c.
Proof.
  induction xs as [|x l IH] using rev_ind.
  - unfold sumsq, sum. simpl. ring.
  - rewrite map_app. cbn [map].
    rewrite sum_last, sumsq_last, sum_last, inject_Z_length_last, IH. ring.
Qed.

Lemma sum_nonneg (xs : list Q) : Forall (fun x => 0 <= x) xs -> 0 <= sum xs.
Proof.
  induction xs as [|x l IH] using rev_ind; intros H.
  - unfold sum; simpl. apply Qle_refl.
  - rewrite sum_last. apply Forall_app in H. destruct H as [Hl Hx].
    inversion Hx; subst. specialize (IH Hl). lra.
Qed.

Lemma ssd_nonneg (xs : list Q) : 0 <= ssd xs.
Proof.
  unfold ssd. apply sum_nonneg. apply Forall_forall. intros y Hy.
  apply in_map_iff in Hy. destruct Hy as (x & <- & _).
  generalize (x - mean xs). intros d. nra.
Qed.

(** ** The one-pass loop of the correlation *)

Lemma welford_run_last (l : list (Q * Q)) (v : Q * Q) :
  fold_left welford_step (l ++ [v]) welford_init
  = welford_step (fold_left welford_step l welford_init) v.
Proof. now rewrite fold_left_app. Qed.

(** After the loop: the count, the mean and the sum of squared
    differences of the first column, by its two moments. *)
Lemma welford_moments (l : list (Q * Q)) :
  let w := fold_left welford_step l welford_init in
  nobs w = Z.of_nat (List.length l)
  /\ inject_Z (nobs w) * meanx w == sum (map fst l)
  /\ ssqdm_x w == sumsq (map fst l) - inject_Z (nobs w) * meanx w * meanx w.
Proof.
  induction l as [|v l IH] using rev_ind.
  - simpl. repeat split; unfold sum, sumsq; simpl; ring.
  - rewrite welford_run_last. simpl in IH.
    set (w := fold_left welford_step l welford_init) in *.
    destruct IH as (Hn & Hm & Hs).
    assert (Hpos : 0 <= inject_Z (nobs w)).
    { rewrite Hn. apply inject_Z_length_nonneg. }
    cbn [welford_step nobs meanx ssqdm_x].
    rewrite !map_app. cbn [map]. rewrite sum_last, sumsq_last.
    rewrite inject_Z_plus.
    split; [|split].
    + rewrite Hn, length_app. simpl. lia.
    + rewrite <- Hm. field. change (inject_Z 1) with 1. lra.
    + rewrite Hs. field. change (inject_Z 1) with 1. lra.
Qed.

Lemma combine_diag {A : Type} (xs : list A) :
  combine xs xs = map (fun x => (x, x)) xs.
Proof. induction xs as [|x l IH]; simpl; [reflexivity|now rewrite IH]. Qed.

(** A column against itself: the two halves of the state, and the
    cross term, are the same numbers. *)
Lemma welford_diag (xs : list Q) :
  let w := welford_run xs xs in
  meany w = meanx w /\ ssqdm_y w = ssqdm_x w /\ covxy w = ssqdm_x w.
Proof.
  unfold welford_run. rewrite combine_diag.
  induction xs as [|x l IH] using rev_ind.
  - simpl. repeat split.
  - rewrite map_app. cbn [map]. rewrite welford_run_last.
    cbv zeta in IH.
    set (w := fold_left welford_step (map (fun x => (x, x)) l) welford_init) in *.
    destruct IH as (Hm & Hs & Hc).
    cbn [welford_step nobs meanx meany ssqdm_x ssqdm_y covxy fst snd].
    rewrite Hm, Hs, Hc. repeat split.
Qed.

(** The one-pass sum of squared differences is the sum of the squared
    deviations from the mean. *)
Lemma welford_ssd (xs : list Q) :
  xs <> [] ->
  nobs (welford_run xs xs) = Z.of_nat (List.length xs)
  /\ ssqdm_x (welford_run xs xs) == ssd xs.
Proof.
  intros Hne. unfold welford_run.
  destruct (welford_moments (combine xs xs)) as (Hn & Hm & Hs).
  set (w := fold_left welford_step (combine xs xs) welford_init) in *.
  assert (Hfst : map fst (combine xs xs) = xs).
  { rewrite combine_diag, map_map. apply map_id. }
  assert (Hlen : List.length (combine xs xs) = List.length xs).
  { rewrite combine_diag. apply length_map. }
  rewrite Hfst in Hm, Hs. rewrite Hlen in Hn.
  split; [exact Hn|].
  assert (Hpos : 0 < inject_Z (Z.of_nat (List.length xs))).
  { change 0 with (inject_Z 0). rewrite <- Zlt_Qlt.
    destruct xs; [contradiction|simpl; lia]. }
  rewrite Hn in Hm, Hs.
  assert (Hmean : meanx w == mean xs).
  { rewrite mean_eq, <- Hm. field. lra. }
  unfold ssd. rewrite sum_sq_dev, Hs, <- Hm, Hmean. ring.
Qed.

(** ** The correlation matrix *)

Lemma clip_1 : clip 1 = 1%R.
Proof.
  unfold clip. destruct (Rgt_dec 1 1); [reflexivity|].
  destruct (Rlt_dec 1 (-1)); [lra|reflexivity].
Qed.

Lemma Q2R_0 : Q2R 0 = 0%R.
Proof. unfold Q2R; simpl. lra. Qed.

(** A column against itself: 1 when its values spread, NaN when they do
    not. *)
Lemma corr_pair_diag (xs : list Q) :
  xs <> [] ->
  (~ ssd xs == 0 -> corr_pair xs xs = Some 1%R)
  /\ (ssd xs == 0 -> corr_pair xs xs = None).
Proof.
  intros Hne. unfold corr_pair.
  destruct (welford_ssd xs Hne) as (Hn & Hs).
  destruct (welford_diag xs) as (_ & Hy & Hc). cbv zeta in Hy, Hc.
  set (w := welford_run xs xs) in *.
  rewrite Hy, Hc.
  assert (Hobs : (nobs w <? 1)%Z = false).
  { apply Z.ltb_ge. rewrite Hn. destruct xs; [contradiction|simpl; lia]. }
  rewrite Hobs. rewrite Q2R_mult.
  pose proof (ssd_nonneg xs) as Hge.
  split; intros Hv.
  - assert (Hpos : 0 < ssqdm_x w) by (rewrite Hs; lra).
    apply Qlt_Rlt in Hpos. rewrite Q2R_0 in Hpos.
    rewrite sqrt_square by lra.
    destruct (Req_dec_T (Q2R (ssqdm_x w)) 0) as [E|_]; [lra|].
    replace (Q2R (ssqdm_x w) / Q2R (ssqdm_x w))%R with 1%R by (field; lra).
    now rewrite clip_1.
  - assert (Hz : Q2R (ssqdm_x w) = 0%R).
    { rewrite <- Q2R_0. apply Qeq_eqR. now rewrite Hs. }
    rewrite Hz, Rmult_0_l, sqrt_0.
    destruct (Req_dec_T 0 0) as [_|E]; [reflexivity|contradiction].
Qed.

Lemma combine_swap {A : Type} (xs ys : list A) :
  combine ys xs = map (fun v => (snd v, fst v)) (combine xs ys).
Proof.
  revert ys. induction xs as [|x l IH]; intros [|y t]; simpl;
    try reflexivity. now rewrite IH.
Qed.

(** Exchanging the two columns exchanges the two halves of the state and
    keeps the cross term. *)
Lemma welford_swap (l : list (Q * Q)) :
  let w := fold_left welford_step l welford_init in
  let w' := fold_left welford_step (map (fun v => (snd v, fst v)) l) welford_init in
  nobs w' = nobs w
  /\ meanx w' = meany w /\ meany w' = meanx w
  /\ ssqdm_x w' = ssqdm_y w /\ ssqdm_y w' = ssqdm_x w
  /\ covxy w' == covxy w
  /\ (0 <= nobs w)%Z.
Proof.
  induction l as [|v l IH] using rev_ind.
  - simpl. do 5 (split; [reflexivity|]). split; [reflexivity|lia].
  - rewrite map_app. cbn [map]. rewrite !welford_run_last. cbv zeta in IH.
    set (w := fold_left welford_step l welford_init) in *.
    set (w' := fold_left welford_step (map (fun v => (snd v, fst v)) l) welford_init) in *.
    destruct IH as (Hn & Hmx & Hmy & Hsx & Hsy & Hc & Hpos).
    cbn [welford_step nobs meanx meany ssqdm_x ssqdm_y covxy fst snd].
    rewrite Hn, Hmx, Hmy, Hsx, Hsy, Hc.
    do 5 (split; [reflexivity|]). split; [|lia].
    assert (Hq : 0 <= inject_Z (nobs w)).
    { change 0 with (inject_Z 0). now rewrite <- Zle_Qle. }
    rewrite inject_Z_plus. field. change (inject_Z 1) with 1. lra.
Qed.

(** The coefficient of two columns does not depend on their order. *)
Lemma corr_pair_sym (xs ys : list Q) : corr_pair ys xs = corr_pair xs ys.
Proof.
  unfold corr_pair, welford_run. rewrite (combine_swap xs ys).
  destruct (welford_swap (combine xs ys)) as (Hn & _ & _ & Hsx & Hsy & Hc & _).
  set (w := fold_left welford_step (combine xs ys) welford_init) in *.
  set (w' := fold_left welford_step
               (map (fun v => (snd v, fst v)) (combine xs ys)) welford_init) in *.
  rewrite Hn, Hsx, Hsy, (Qeq_eqR _ _ Hc).
  rewrite (Qeq_eqR _ _ (Qmult_comm (ssqdm_y w) (ssqdm_x w))).
  reflexivity.
Qed.

Lemma entry_nancorr (mat : list (list Q)) (i j : nat) :
  (i < List.length mat)%nat -> (j < List.length mat)%nat ->
  entry (nancorr mat) i j = nancorr_entry mat i j.
Proof.
  intros Hi Hj. unfold entry, nancorr.
  set (row := fun i => map (fun j => nancorr_entry mat i j) (seq 0 (List.length mat))).
  rewrite (nth_indep _ [] (row O)) by now rewrite length_map, length_seq.
  rewrite (map_nth row), seq_nth by assumption. unfold row.
  rewrite (nth_indep _ None (nancorr_entry mat (0 + i) O))
    by now rewrite length_map, length_seq.
  rewrite (map_nth (fun j => nancorr_entry mat (0 + i) j)), seq_nth by assumption.
  reflexivity.
Qed.

Lemma nancorr_entry_sym (mat : list (list Q)) (i j : nat) :
  nancorr_entry mat i j = nancorr_entry mat j i.
Proof. unfold nancorr_entry. now rewrite Nat.max_comm, Nat.min_comm. Qed.

Lemma variance_zero_iff (xs : list Q) :
  xs <> [] -> (variance xs == 0 <-> ssd xs == 0).
Proof.
  intros Hne. unfold variance.
  assert (Hpos : 0 < inject_Z (Z.of_nat (List.length xs))).
  { change 0 with (inject_Z 0). rewrite <- Zlt_Qlt.
    destruct xs; [contradiction|simpl; lia]. }
  split; intros H.
  - rewrite <- (Qmult_div_r (ssd xs) (inject_Z (Z.of_nat (List.length xs)))) by lra.
    rewrite H. ring.
  - rewrite H. field. lra.
Qed.

(** C6. For a non-empty frame the correlation matrix is 5 x 5 and
    symmetric, and on the diagonal the entry of a field is 1 when the
    variance of the field is not zero and undefined (NaN) when it is zero;
    the matrix is returned in both cases. Numbers are exact rationals
    here. *)
Theorem correlation_matrix_symmetric_unit_diagonal (df : list Row) :
  df <> [] ->
  List.length (get_correlation_matrix df) = 5%nat
  /\ Forall (fun row => List.length row = 5%nat) (get_correlation_matrix df)
  /\ (forall i j, (i < 5)%nat -> (j < 5)%nat ->
                  entry (get_correlation_matrix df) i j
                  = entry (get_correlation_matrix df) j i)
  /\ (forall i j colx coly,
         nth_error numerical_cols i = Some colx ->
         nth_error numerical_cols j = Some coly ->
         entry (get_correlation_matrix df) i j
         = corr_pair (map colx df) (map coly df))
  /\ (forall i col,
         nth_error numerical_cols i = Some col ->
         (~ variance (map col df) == 0 ->
          entry (get_correlation_matrix df) i i = Some 1%R)
         /\ (variance (map col df) == 0 ->
             entry (get_correlation_matrix df) i i = None)).
Proof.
  intros Hne. unfold get_correlation_matrix.
  set (mat := map (fun col : Row -> Q => map col df) numerical_cols).
  assert (Hlen : List.length mat = 5%nat) by reflexivity.
  assert (Hcolumn : forall i col, nth_error numerical_cols i = Some col ->
            (i < 5)%nat /\ nth i mat [] = map col df).
  { intros i col Hcol. split.
    - change (i < List.length numerical_cols)%nat.
      apply nth_error_Some. congruence.
    - unfold mat. apply nth_error_nth. now rewrite nth_error_map, Hcol. }
  split; [reflexivity|]. split; [repeat constructor|]. split; [|split].
  - intros i j Hi Hj. rewrite !entry_nancorr by (rewrite Hlen; assumption).
    apply nancorr_entry_sym.
  - intros i j colx coly Hx Hy.
    destruct (Hcolumn i colx Hx) as (Hi & Hnx).
    destruct (Hcolumn j coly Hy) as (Hj & Hny).
    rewrite entry_nancorr by (rewrite Hlen; assumption).
    unfold nancorr_entry.
    destruct (Nat.le_ge_cases j i) as [Hji|Hij].
    + now rewrite Nat.max_l, Nat.min_r, Hnx, Hny by assumption.
    + rewrite Nat.max_r, Nat.min_l, Hnx, Hny by assumption.
      apply corr_pair_sym.
  - intros i col Hcol.
    assert (Hi : (i < List.length numerical_cols)%nat)
      by (apply nth_error_Some; congruence).
    change (i < 5)%nat in Hi.
    rewrite entry_nancorr by (rewrite Hlen; assumption).
    unfold nancorr_entry. rewrite Nat.max_id, Nat.min_id.
    assert (Hnth : nth i mat [] = map col df).
    { unfold mat. apply nth_error_nth.
      now rewrite nth_error_map, Hcol. }
    rewrite Hnth.
    assert (Hcne : map col df <> []) by (destruct df; [contradiction|discriminate]).
    rewrite (variance_zero_iff _ Hcne). now apply corr_pair_diag.
Qed.

Lemma correlation_matrix_symmetric_unit_diagonal_witness :
  two_tracks <> []
  /\ ~ variance (map track_popularity two_tracks) == 0
  /\ entry (get_correlation_matrix two_tracks) 0 0 = Some 1%R
  /\ entry (get_correlation_matrix two_tracks) 0 3
     = entry (get_correlation_matrix two_tracks) 3 0.
Proof.
  assert (Hne : two_tracks <> []) by discriminate.
  assert (Hvar : ~ variance (map track_popularity two_tracks) == 0).
  { vm_compute. intros E. discriminate E. }
  destruct (correlation_matrix_symmetric_unit_diagonal two_tracks Hne)
    as (_ & _ & Hsym & _ & Hdiag).
  split; [exact Hne|]. split; [exact Hvar|]. split.
  - now apply (Hdiag 0%nat track_popularity eq_refl).
  - apply Hsym; lia.
Defined.

(** ** Examples *)

Example cut_boundaries :
  map (fun p => cut p bins labels) [0; 24.999; 25; 49; 50; 74; 75; 99]
  = [Some Low; Some Low; Some Medium; Some Medium; Some High; Some High;
     Some VeryHigh; Some VeryHigh].
Proof. reflexivity. Qed.

Example load_bad_date :
  load_and_preprocess_data iso_date [line_80; line_bad_date]
  = Raise DateParseError.
Proof. reflexivity. Qed.

Example load_dropped_line_not_parsed :
  load_and_preprocess_data iso_date [line_dropped_bad_date; line_80]
  = Ok [sample_row "A" "Pop" 80 2020].
Proof. vm_compute. reflexivity. Qed.

Example load_drops_one :
  exists out,
    load_and_preprocess_data iso_date [line_80; line_no_artist; line_101] = Ok out
    /\ List.length out = 2%nat.
Proof. eexists. split; [vm_compute; reflexivity|reflexivity]. Qed.

Example split_tokens :
  split ", " "Pop, Rock, Indie Pop" = ["Pop"; "Rock"; "Indie Pop"]
  /\ split ", " "a,b , c,  d" = ["a,b "; "c"; " d"].
Proof. split; reflexivity. Qed.

Example top_artists_all :
  get_top_artists two_tracks 10 = [("A", 80); ("B", 40)].
Proof. vm_compute. reflexivity. Qed.

(** * Further properties *)

(** ** The loaded frame *)

Lemma cut_Some_inv (p : Q) (c : Category) :
  cut p bins labels = Some c ->
  match c with
  | Low => 0 <= p < 25
  | Medium => 25 <= p < 50
  | High => 50 <= p < 75
  | VeryHigh => 75 <= p < 100
  end.
Proof.
  unfold cut, bins, labels; simpl.
  edge 0 p; [edge 25 p; [edge 50 p; [edge 75 p; [edge 100 p|]|]|]|];
    simpl; intros H; try discriminate; injection H as <-; split; assumption.
Qed.

Lemma cut_None_iff (p : Q) :
  cut p bins labels = None <-> p < 0 \/ 100 <= p.
Proof.
  destruct (cut_bins p) as (H0 & H1 & H2 & H3 & H4 & H5). split.
  - intros Hnone.
    destruct (Qlt_le_dec p 0); [now left|].
    destruct (Qlt_le_dec p 100); [|now right]. exfalso.
    destruct (Qlt_le_dec p 25); [rewrite H1 in Hnone by (split; assumption); discriminate|].
    destruct (Qlt_le_dec p 50); [rewrite H2 in Hnone by (split; assumption); discriminate|].
    destruct (Qlt_le_dec p 75); [rewrite H3 in Hnone by (split; assumption); discriminate|].
    rewrite H4 in Hnone by (split; assumption). discriminate.
  - intros [H|H]; auto.
Qed.

(** X1. A record of a loaded frame is without popularity category exactly
    when its track popularity is below 0 or not below 100. *)
Theorem category_missing_iff parse file out r :
  load_and_preprocess_data parse file = Ok out ->
  In r out ->
  (popularity_category r = None
   <-> track_popularity r < 0 \/ 100 <= track_popularity r).
Proof.
  intros Hload Hin. rewrite (loaded_category _ _ _ _ Hload Hin).
  apply cut_None_iff.
Qed.

Lemma category_missing_iff_witness :
  load_and_preprocess_data iso_date [line_80; line_101]
  = Ok [sample_row "A" "Pop" 80 2020; sample_row "A" "Pop" 101 2020]
  /\ In (sample_row "A" "Pop" 80 2020)
       [sample_row "A" "Pop" 80 2020; sample_row "A" "Pop" 101 2020]
  /\ (popularity_category (sample_row "A" "Pop" 80 2020) = None
      <-> track_popularity (sample_row "A" "Pop" 80 2020) < 0
          \/ 100 <= track_popularity (sample_row "A" "Pop" 80 2020)).
Proof.
  assert (Hload : load_and_preprocess_data iso_date [line_80; line_101]
                  = Ok [sample_row "A" "Pop" 80 2020; sample_row "A" "Pop" 101 2020])
    by (vm_compute; reflexivity).
  assert (Hin : In (sample_row "A" "Pop" 80 2020)
                  [sample_row "A" "Pop" 80 2020; sample_row "A" "Pop" 101 2020])
    by (left; reflexivity).
  split; [exact Hload|]. split; [exact Hin|].
  exact (category_missing_iff iso_date _ _ _ Hload Hin).
Defined.

(** X2. Within a loaded frame the category does not go down when the
    track popularity goes up: of two categorised records, the one with the
    larger popularity has the same or a later label. *)
Theorem category_monotone parse file out r r' c c' :
  load_and_preprocess_data parse file = Ok out ->
  In r out -> In r' out ->
  track_popularity r <= track_popularity r' ->
  popularity_category r = Some c ->
  popularity_category r' = Some c' ->
  (category_rank c <= category_rank c')%nat
  /\ nth_error labels (category_rank c) = Some c.
Proof.
  intros Hload Hin Hin' Hle Hc Hc'.
  rewrite (loaded_category _ _ _ _ Hload Hin) in Hc.
  rewrite (loaded_category _ _ _ _ Hload Hin') in Hc'.
  apply cut_Some_inv in Hc. apply cut_Some_inv in Hc'.
  split; [|now destruct c].
  destruct c, c'; simpl; try lia; exfalso; lra.
Qed.

Lemma category_monotone_witness :
  load_and_preprocess_data iso_date [line_80; line_30]
  = Ok [sample_row "A" "Pop" 80 2020; sample_row "D" "Rock" 30 2019]
  /\ track_popularity (sample_row "D" "Rock" 30 2019)
     <= track_popularity (sample_row "A" "Pop" 80 2020)
  /\ (category_rank Medium <= category_rank VeryHigh)%nat.
Proof.
  assert (Hload : load_and_preprocess_data iso_date [line_80; line_30]
                  = Ok [sample_row "A" "Pop" 80 2020; sample_row "D" "Rock" 30 2019]).
  { vm_compute. reflexivity. }
  assert (Hle : track_popularity (sample_row "D" "Rock" 30 2019)
                <= track_popularity (sample_row "A" "Pop" 80 2020)).
  { vm_compute. intros E. discriminate E. }
  split; [exact Hload|]. split; [exact Hle|].
  refine (proj1 (category_monotone iso_date _ _ _ _ Medium VeryHigh Hload _ _ Hle _ _)).
  - right; left; reflexivity.
  - left; reflexivity.
  - reflexivity.
  - reflexivity.
Defined.

(** X4. In a loaded frame no record lacks its artist name or its genre
    cell, [duration_in_minutes] is the track duration, and the release year
    is the year of the release date, missing when the date is. *)
Theorem loaded_frame_columns parse file out r :
  load_and_preprocess_data parse file = Ok out ->
  In r out ->
  artist_name r <> None
  /\ artist_genres r <> None
  /\ duration_in_minutes r = track_duration_min r
  /\ release_year r = option_map year (album_release_date r)
  /\ (album_release_date r = None <-> release_year r = None).
Proof.
  intros Hload Hin. apply load_Ok in Hload.
  destruct (Forall2_In_r _ _ _ _ Hload Hin) as (line & _ & Hret & d & _ & ->).
  simpl. rewrite (read_cell_retained _ Hret).
  repeat split; try discriminate.
  - destruct (read_cell (csv_artist_genres line)); discriminate.
  - intros ->. reflexivity.
  - destruct d; [discriminate|reflexivity].
Qed.

Lemma loaded_frame_columns_witness :
  load_and_preprocess_data iso_date [line_no_genres; line_no_date]
  = Ok [derive_row (fill_genres (read_row line_no_genres),
                    Some (mkTimestamp 2018 3 1));
        derive_row (fill_genres (read_row line_no_date), None)]
  /\ artist_genres (derive_row (fill_genres (read_row line_no_genres),
                                Some (mkTimestamp 2018 3 1))) <> None
  /\ release_year (derive_row (fill_genres (read_row line_no_date), None)) = None.
Proof.
  assert (Hload : load_and_preprocess_data iso_date [line_no_genres; line_no_date]
    = Ok [derive_row (fill_genres (read_row line_no_genres),
                      Some (mkTimestamp 2018 3 1));
          derive_row (fill_genres (read_row line_no_date), None)]).
  { vm_compute. reflexivity. }
  split; [exact Hload|]. split.
  - refine (proj1 (proj2 (loaded_frame_columns iso_date _ _ _ Hload _))).
    left; reflexivity.
  - apply (loaded_frame_columns iso_date _ _ _ Hload).
    + right; left; reflexivity.
    + reflexivity.
Defined.

(** ** Splitting, again *)

Lemma split_aux_skip (k : nat) (cur : string) (c : ascii) (rest : string) :
  split_aux ", " (S k) cur (String c rest) = split_aux ", " k cur rest.
Proof. reflexivity. Qed.

Lemma split_aux_nonempty (s : string) (skip : nat) (cur : string) :
  split_aux ", " skip cur s <> [].
Proof.
  revert skip cur. induction s as [|c s IH]; intros skip cur.
  - discriminate.
  - destruct skip as [|k].
    + rewrite split_aux_step. destruct (prefix ", " (String c s)).
      * discriminate.
      * apply IH.
    + rewrite split_aux_skip. apply IH.
Qed.

Lemma concat_cons (sep x : string) (l : list string) :
  l <> [] -> concat sep (x :: l) = x ++ sep ++ concat sep l.
Proof. destruct l; [contradiction|reflexivity]. Qed.

Lemma join_split_aux (n : nat) (s cur : string) :
  (String.length s <= n)%nat ->
  concat ", " (split_aux ", " 0 cur s) = cur ++ s.
Proof.
  revert s cur. induction n as [|n IH]; intros s cur Hlen.
  - destruct s; [|simpl in Hlen; lia]. simpl. now rewrite append_empty_r.
  - destruct s as [|c rest]; [simpl; now rewrite append_empty_r|].
    rewrite split_aux_step.
    destruct (prefix ", " (String c rest)) eqn:E.
    + apply prefix_separator in E. destruct E as (q & E).
      cbn [append] in E. injection E as -> ->.
      rewrite split_aux_skip, concat_cons by apply split_aux_nonempty.
      rewrite IH by (simpl in Hlen; lia). reflexivity.
    + rewrite IH by (simpl in Hlen; lia). now rewrite append_assoc.
Qed.

(** X5. Joining the tokens of a genre cell with a comma and a space
    gives the cell back: the split loses no character. *)
Theorem join_split (s : string) : concat ", " (split ", " s) = s.
Proof. exact (join_split_aux (String.length s) s "" (Nat.le_refl _)). Qed.

Lemma length_append (a b : string) :
  String.length (a ++ b) = (String.length a + String.length b)%nat.
Proof. induction a as [|c a IH]; simpl; [reflexivity|now rewrite IH]. Qed.

Lemma append_inj_length (a b c d : string) :
  a ++ b = c ++ d -> String.length a = String.length c -> a = c /\ b = d.
Proof.
  revert c. induction a as [|x a IH]; intros [|y c] H Hlen;
    simpl in Hlen; try discriminate.
  - now split.
  - cbn [append] in H. injection H as -> H.
    destruct (IH c H) as (-> & ->); [lia|now split].
Qed.

(** While a cell is read, [cur] holding the token under way and [s] the
    text still to read, no delimiter starts inside [cur]. *)
Lemma split_aux_tokens_free (n : nat) (s cur : string) :
  (String.length s <= n)%nat ->
  (forall p q, cur ++ s = p ++ ", " ++ q ->
               (String.length cur <= String.length p)%nat) ->
  Forall (fun t => ~ has_separator t) (split_aux ", " 0 cur s).
Proof.
  revert s cur. induction n as [|n IH]; intros s cur Hlen Hinv.
  - destruct s; [|simpl in Hlen; lia]. constructor; [|constructor].
    intros (p & q & E).
    specialize (Hinv p q). rewrite append_empty_r in Hinv.
    specialize (Hinv E). rewrite E, !length_append in Hinv. simpl in Hinv. lia.
  - assert (Hfree : ~ has_separator cur).
    { intros (p & q & E).
      specialize (Hinv p (q ++ s)).
      rewrite E, !append_assoc in Hinv. specialize (Hinv eq_refl).
      rewrite !length_append in Hinv. simpl in Hinv. lia. }
    destruct s as [|c rest]; [repeat constructor; exact Hfree|].
    rewrite split_aux_step.
    destruct (prefix ", " (String c rest)) eqn:E.
    + apply prefix_separator in E. destruct E as (q & E).
      cbn [append] in E. injection E as -> ->.
      rewrite split_aux_skip. constructor; [exact Hfree|].
      apply IH; [simpl in Hlen; lia|].
      intros p q' _. simpl. lia.
    + apply IH; [simpl in Hlen; lia|].
      intros p q E'. rewrite append_assoc in E'. cbn [append] in E'.
      pose proof (Hinv p q E') as Hle.
      rewrite length_append. simpl.
      destruct (Nat.eq_dec (String.length cur) (String.length p)) as [Heq|Hne]; [|lia].
      exfalso. destruct (append_inj_length _ _ _ _ E' Heq) as (_ & Hs).
      assert (Hpre : prefix ", " (String c rest) = true).
      { apply prefix_separator. now exists q. }
      congruence.
Qed.

(** X6. A genre cell always splits into at least one token, and no token
    holds the delimiter (a comma followed by a space). *)
Theorem split_tokens_separator_free (s : string) :
  split ", " s <> []
  /\ Forall (fun t => ~ has_separator t) (split ", " s).
Proof.
  split; [apply split_aux_nonempty|].
  apply (split_aux_tokens_free (String.length s)); [apply Nat.le_refl|].
  intros p q _. simpl. lia.
Qed.

(** ** Exploding the genres *)

Lemma with_genres_back (r : Row) (g : option string) :
  same_but_genres r (with_genres r g).
Proof. unfold same_but_genres. now destruct r. Qed.

Lemma genre_count_pos (r : Row) : (1 <= genre_count r)%nat.
Proof.
  unfold genre_count, genre_tokens. destruct (artist_genres r) as [s|]; simpl; [|lia].
  pose proof (split_aux_nonempty s 0 "") as H. unfold split.
  destruct (split_aux ", " 0 "" s); [contradiction|simpl; lia].
Qed.

Lemma explode_genres_length (df : list Row) :
  List.length (explode_genres df) = list_sum (map genre_count df).
Proof.
  unfold explode_genres. induction df as [|r t IH]; simpl; [reflexivity|].
  rewrite length_app, IH. f_equal. unfold genre_count.
  destruct (genre_tokens r); [apply length_map|reflexivity].
Qed.

Lemma explode_genres_In (df : list Row) (r' : Row) :
  In r' (explode_genres df)
  <-> exists r, In r df
                /\ match genre_tokens r with
                   | Some tokens => exists g, In g tokens /\ r' = with_genres r (Some g)
                   | None => r' = r
                   end.
Proof.
  unfold explode_genres. rewrite in_flat_map. split.
  - intros (r & Hr & Hin). exists r. split; [exact Hr|].
    destruct (genre_tokens r) as [tokens|].
    + apply in_map_iff in Hin. destruct Hin as (g & <- & Hg). now exists g.
    + destruct Hin as [<-|[]]. reflexivity.
  - intros (r & Hr & H). exists r. split; [exact Hr|].
    destruct (genre_tokens r) as [tokens|].
    + destruct H as (g & Hg & ->). apply in_map_iff. now exists g.
    + left. now symmetry.
Qed.

(** X7. Exploding loses no record and touches the genre cell only: every
    record gives at least one row, the number of rows is the number of
    genre tokens of the frame, and the rows are the records, the genre
    cell apart. *)
Theorem explode_keeps_records (df : list Row) :
  (List.length df <= List.length (explode_genres df))%nat
  /\ List.length (explode_genres df) = list_sum (map genre_count df)
  /\ (forall r', In r' (explode_genres df) ->
                 exists r, In r df /\ same_but_genres r r')
  /\ (forall r, In r df ->
                exists r', In r' (explode_genres df) /\ same_but_genres r r').
Proof.
  split; [|split; [apply explode_genres_length|split]].
  - rewrite explode_genres_length.
    induction df as [|r t IH]; simpl; [lia|].
    pose proof (genre_count_pos r). lia.
  - intros r' Hin. apply explode_genres_In in Hin.
    destruct Hin as (r & Hr & H). exists r. split; [exact Hr|].
    destruct (genre_tokens r).
    + destruct H as (g & _ & ->). apply with_genres_back.
    + subst r'. unfold same_but_genres. now destruct r.
  - intros r Hr. pose proof (genre_count_pos r) as Hpos.
    unfold genre_count in Hpos.
    destruct (genre_tokens r) as [tokens|] eqn:Ht.
    + destruct tokens as [|g ts]; [simpl in Hpos; lia|].
      exists (with_genres r (Some g)). split; [|apply with_genres_back].
      apply explode_genres_In. exists r. split; [exact Hr|].
      rewrite Ht. exists g. split; [now left|reflexivity].
    + exists r. split.
      * apply explode_genres_In. exists r. split; [exact Hr|]. now rewrite Ht.
      * unfold same_but_genres. now destruct r.
Qed.

(** ** Heads of rankings *)

Lemma groupby_mean_size {Row K : Type} (eq_dec : forall a b : K, {a = b} + {a <> b})
  (leb : K -> K -> bool) (key : Row -> option K) (value : Row -> Q)
  (df : list Row) :
  List.length (groupby_mean eq_dec leb key value df)
  = List.length (nodup eq_dec (omap key df)).
Proof.
  unfold groupby_mean. rewrite length_map.
  apply Permutation_length, group_keys_perm.
Qed.

Lemma sort_values_desc_length {K : Type} (s : Series K) :
  List.length (sort_values_desc s) = List.length s.
Proof. apply Permutation_length, sort_values_desc_perm. Qed.

(** X8. The number of entries of [get_top_artists df n] for any [n]:
    with [c] distinct artists it is the smaller of [n] and [c] when [n] is
    not negative (none for [n = 0]), and [c + n], or none when that is
    negative, for a negative [n]. *)
Theorem top_artists_length (df : list Row) (n : Z) :
  List.length (get_top_artists df n)
  = if (0 <=? n)%Z
    then Nat.min (Z.to_nat n)
           (List.length (nodup string_dec (omap artist_name df)))
    else (List.length (nodup string_dec (omap artist_name df))
          - Z.to_nat (- n))%nat.
Proof.
  unfold get_top_artists, head.
  rewrite sort_values_desc_length, groupby_mean_size.
  destruct (0 <=? n)%Z; rewrite length_firstn, sort_values_desc_length,
    groupby_mean_size; lia.
Qed.

(** X9. The top artists for a smaller [n] are the first entries of the
    top artists for a larger one. *)
Theorem top_artists_prefix (df : list Row) (n m : Z) :
  (0 <= n <= m)%Z ->
  head n (get_top_artists df m) = get_top_artists df n.
Proof.
  intros Hnm. unfold get_top_artists, head.
  destruct (Z.leb_spec 0 n); [|lia]. destruct (Z.leb_spec 0 m); [|lia].
  rewrite firstn_firstn. f_equal. lia.
Qed.

Lemma top_artists_prefix_witness :
  (0 <= 1 <= 2)%Z
  /\ head 1 (get_top_artists two_tracks 2) = get_top_artists two_tracks 1.
Proof.
  assert (H : (0 <= 1 <= 2)%Z) by lia.
  split; [exact H|]. exact (top_artists_prefix two_tracks 1 2 H).
Defined.

Lemma head_of_ranking {K : Type} (s : Series K) (n : Z) :
  (0 <= n)%Z ->
  StronglySorted (fun a b => snd b <= snd a) s ->
  NoDup (map fst s) ->
  (Z.of_nat (List.length (head n s)) <= n)%Z
  /\ NoDup (map fst (head n s))
  /\ StronglySorted (fun a b => snd b <= snd a) (head n s)
  /\ (exists rest, s = (head n s ++ rest)%list
                   /\ forall e e', In e (head n s) -> In e' rest ->
                                   snd e' <= snd e)
  /\ ((Z.of_nat (List.length s) <= n)%Z -> head n s = s).
Proof.
  intros Hn Hsorted Hnd. unfold head. destruct (Z.leb_spec 0 n); [|lia].
  split; [|split; [|split; [|split]]].
  - pose proof (firstn_le_length (Z.to_nat n) s). lia.
  - now apply NoDup_firstn_map.
  - now apply StronglySorted_firstn.
  - exists (skipn (Z.to_nat n) s). split; [now rewrite firstn_skipn|].
    apply StronglySorted_app_inv. now rewrite firstn_skipn.
  - intros Hall. apply firstn_all2. lia.
Qed.

(** X10. The genre table of the dashboard, the first ten entries of the
    genre ranking: at most ten genres, none twice, the larger means first;
    the genres left out have means no larger than those shown; and a
    ranking of at most ten genres is shown whole. *)
Theorem top_genres_first_ten (df : list Row) :
  (List.length (top_genres df) <= 10)%nat
  /\ NoDup (map fst (top_genres df))
  /\ StronglySorted (fun a b => snd b <= snd a) (top_genres df)
  /\ (exists rest, get_popularity_by_genre df = (top_genres df ++ rest)%list
                   /\ forall e e', In e (top_genres df) -> In e' rest ->
                                   snd e' <= snd e)
  /\ ((List.length (get_popularity_by_genre df) <= 10)%nat ->
      top_genres df = get_popularity_by_genre df).
Proof.
  unfold top_genres.
  destruct (head_of_ranking (get_popularity_by_genre df) 10) as (H1 & H2 & H3 & H4 & H5).
  - lia.
  - apply sort_values_desc_sorted.
  - unfold get_popularity_by_genre. eapply Permutation_NoDup.
    + symmetry. apply Permutation_map, sort_values_desc_perm.
    + rewrite groupby_mean_keys. apply group_keys_NoDup.
  - split; [lia|]. split; [exact H2|]. split; [exact H3|]. split; [exact H4|].
    intros Hlen. apply H5. lia.
Qed.

(** ** The range of the correlation *)

Lemma clip_range (x : R) : (-1 <= clip x <= 1)%R.
Proof.
  unfold clip. destruct (Rgt_dec x 1); [lra|].
  destruct (Rlt_dec x (-1)); lra.
Qed.

Lemma corr_pair_range (xs ys : list Q) (v : R) :
  corr_pair xs ys = Some v -> (-1 <= v <= 1)%R.
Proof.
  unfold corr_pair. destruct (nobs (welford_run xs ys) <? 1)%Z; [discriminate|].
  destruct (Req_dec_T _ 0); [discriminate|].
  intros H; injection H as <-. apply clip_range.
Qed.

(** X11. No entry of the correlation matrix lies outside [-1, 1]: an
    entry is undefined or between -1 and 1. *)
Theorem correlation_entries_in_range (df : list Row) :
  Forall (Forall (fun e => match e with
                           | Some v => (-1 <= v <= 1)%R
                           | None => True
                           end))
    (get_correlation_matrix df).
Proof.
  unfold get_correlation_matrix, nancorr.
  apply Forall_forall. intros row Hrow. apply in_map_iff in Hrow.
  destruct Hrow as (i & <- & _).
  apply Forall_forall. intros e He. apply in_map_iff in He.
  destruct He as (j & <- & _). unfold nancorr_entry.
  destruct (corr_pair _ _) as [v|] eqn:E; [|exact I].
  now apply corr_pair_range in E.
Qed.

(** ** Defined and undefined correlations *)

Lemma map_fst_combine_eq {A B : Type} (xs : list A) (ys : list B) :
  List.length xs = List.length ys -> map fst (combine xs ys) = xs.
Proof.
  revert ys. induction xs as [|x l IH]; intros [|y t] H; simpl in *;
    try discriminate; [reflexivity|]. now rewrite IH by lia.
Qed.

Lemma combine_length_eq {A B : Type} (xs : list A) (ys : list B) :
  List.length xs = List.length ys ->
  List.length (combine xs ys) = List.length xs.
Proof. intros H. rewrite length_combine. lia. Qed.

(** The two moments kept by the loop give the squared deviations. *)
Lemma moments_ssd (xs : list Q) (m M2 : Q) :
  xs <> [] ->
  inject_Z (Z.of_nat (List.length xs)) * m == sum xs ->
  M2 == sumsq xs - inject_Z (Z.of_nat (List.length xs)) * m * m ->
  M2 == ssd xs.
Proof.
  intros Hne Hm Hs.
  assert (Hpos : 0 < inject_Z (Z.of_nat (List.length xs))).
  { change 0 with (inject_Z 0). rewrite <- Zlt_Qlt.
    destruct xs; [contradiction|simpl; lia]. }
  assert (Hmean : m == mean xs).
  { rewrite mean_eq, <- Hm. field. lra. }
  unfold ssd. rewrite sum_sq_dev, Hs, <- Hm, Hmean. ring.
Qed.

(** Two columns of one frame: the loop counts the rows and leaves, for
    each column, the sum of its squared deviations. *)
Lemma welford_pair_ssd (xs ys : list Q) :
  List.length xs = List.length ys -> xs <> [] ->
  nobs (welford_run xs ys) = Z.of_nat (List.length xs)
  /\ ssqdm_x (welford_run xs ys) == ssd xs
  /\ ssqdm_y (welford_run xs ys) == ssd ys.
Proof.
  intros Hlen Hne.
  assert (Hx : forall us vs : list Q,
             List.length us = List.length vs -> us <> [] ->
             nobs (welford_run us vs) = Z.of_nat (List.length us)
             /\ ssqdm_x (welford_run us vs) == ssd us).
  { intros us vs Hl Hn. unfold welford_run.
    destruct (welford_moments (combine us vs)) as (Hn' & Hm & Hs).
    rewrite (map_fst_combine_eq _ _ Hl) in Hm, Hs.
    rewrite (combine_length_eq _ _ Hl) in Hn'.
    rewrite Hn' in Hm, Hs. split; [exact Hn'|].
    now apply (moments_ssd us _ _ Hn Hm Hs). }
  destruct (Hx xs ys Hlen Hne) as (Hn & Hsx).
  split; [exact Hn|]. split; [exact Hsx|].
  assert (Hyne : ys <> []) by (destruct ys, xs; simpl in *; congruence).
  destruct (Hx ys xs (eq_sym Hlen) Hyne) as (_ & Hsy).
  unfold welford_run in *. rewrite (combine_swap xs ys) in Hsy.
  destruct (welford_swap (combine xs ys)) as (_ & _ & _ & Hswap & _).
  cbv zeta in Hswap. now rewrite Hswap in Hsy.
Qed.

Lemma corr_pair_None_iff (xs ys : list Q) :
  List.length xs = List.length ys -> xs <> [] ->
  (corr_pair xs ys = None <-> ssd xs == 0 \/ ssd ys == 0).
Proof.
  intros Hlen Hne.
  destruct (welford_pair_ssd xs ys Hlen Hne) as (Hn & Hsx & Hsy).
  unfold corr_pair. set (w := welford_run xs ys) in *.
  assert (Hobs : (nobs w <? 1)%Z = false).
  { apply Z.ltb_ge. rewrite Hn. destruct xs; [contradiction|simpl; lia]. }
  rewrite Hobs.
  assert (Hprod : ssqdm_x w * ssqdm_y w == 0 <-> ssd xs == 0 \/ ssd ys == 0).
  { rewrite <- Hsx, <- Hsy. split.
    - apply Qmult_integral.
    - intros [H|H]; rewrite H; ring. }
  assert (Hge : (0 <= Q2R (ssqdm_x w * ssqdm_y w))%R).
  { rewrite <- Q2R_0. apply Qle_Rle. rewrite Hsx, Hsy.
    apply Qmult_le_0_compat; apply ssd_nonneg. }
  destruct (Req_dec_T (sqrt (Q2R (ssqdm_x w * ssqdm_y w))) 0) as [E|E].
  - split; [intros _|reflexivity].
    apply Hprod. apply eqR_Qeq. rewrite Q2R_0. now apply sqrt_eq_0.
  - split; [discriminate|]. intros H. exfalso. apply E.
    apply Hprod in H. rewrite (Qeq_eqR _ _ H), Q2R_0. apply sqrt_0.
Qed.

(** The entry at [(i, j)] is the coefficient of the fields [i] and [j]. *)
Lemma entry_corr_pair (df : list Row) (i j : nat) (colx coly : Row -> Q) :
  nth_error numerical_cols i = Some colx ->
  nth_error numerical_cols j = Some coly ->
  entry (get_correlation_matrix df) i j
  = corr_pair (map colx df) (map coly df).
Proof.
  intros Hx Hy. unfold get_correlation_matrix.
  set (mat := map (fun col : Row -> Q => map col df) numerical_cols).
  assert (Hcolumn : forall k col, nth_error numerical_cols k = Some col ->
            (k < List.length mat)%nat /\ nth k mat [] = map col df).
  { intros k col Hcol. split.
    - unfold mat. rewrite length_map. apply nth_error_Some. congruence.
    - unfold mat. apply nth_error_nth. now rewrite nth_error_map, Hcol. }
  destruct (Hcolumn i colx Hx) as (Hi & Hnx).
  destruct (Hcolumn j coly Hy) as (Hj & Hny).
  rewrite entry_nancorr by assumption. unfold nancorr_entry.
  destruct (Nat.le_ge_cases j i) as [Hji|Hij].
  - now rewrite Nat.max_l, Nat.min_r, Hnx, Hny by assumption.
  - rewrite Nat.max_r, Nat.min_l, Hnx, Hny by assumption.
    apply corr_pair_sym.
Qed.

(** X12. In the correlation matrix of a non-empty frame the entry of two
    fields is undefined (NaN) exactly when one of the two has zero
    variance; between two fields that both vary it is a number. *)
Theorem correlation_undefined_iff (df : list Row) (i j : nat)
  (colx coly : Row -> Q) :
  df <> [] ->
  nth_error numerical_cols i = Some colx ->
  nth_error numerical_cols j = Some coly ->
  (entry (get_correlation_matrix df) i j = None
   <-> variance (map colx df) == 0 \/ variance (map coly df) == 0).
Proof.
  intros Hne Hx Hy. rewrite (entry_corr_pair df i j colx coly Hx Hy).
  assert (Hxne : map colx df <> []) by (destruct df; [contradiction|discriminate]).
  assert (Hyne : map coly df <> []) by (destruct df; [contradiction|discriminate]).
  rewrite (variance_zero_iff _ Hxne), (variance_zero_iff _ Hyne).
  apply corr_pair_None_iff; [now rewrite !length_map|exact Hxne].
Qed.

Lemma correlation_undefined_iff_witness :
  two_tracks <> []
  /\ variance (map artist_popularity two_tracks) == 0
  /\ entry (get_correlation_matrix two_tracks) 0 1 = None.
Proof.
  assert (Hne : two_tracks <> []) by discriminate.
  assert (Hvar : variance (map artist_popularity two_tracks) == 0)
    by (vm_compute; reflexivity).
  split; [exact Hne|]. split; [exact Hvar|].
  apply (correlation_undefined_iff two_tracks 0 1 track_popularity
           artist_popularity Hne eq_refl eq_refl).
  right. exact Hvar.
Defined.

(** ** Groups as a partition *)

Lemma list_sum_map_add {A : Type} (f g : A -> nat) (l : list A) :
  list_sum (map (fun a => (f a + g a)%nat) l)
  = (list_sum (map f l) + list_sum (map g l))%nat.
Proof. induction l as [|a t IH]; simpl; [reflexivity|]. rewrite IH. lia. Qed.

Lemma list_sum_map_zero {A : Type} (f : A -> nat) (l : list A) :
  (forall a, In a l -> f a = 0%nat) -> list_sum (map f l) = 0%nat.
Proof.
  induction l as [|a t IH]; intros H; simpl; [reflexivity|].
  rewrite (H a) by now left. apply IH. intros b Hb. apply H. now right.
Qed.

Section Partition.

Context {Row K : Type}.
Variable eq_dec : forall a b : K, {a = b} + {a <> b}.
Variable key : Row -> option K.

Lemma in_group_once (ks : list K) (r : Row) (k0 : K) :
  NoDup ks -> In k0 ks -> key r = Some k0 ->
  list_sum (map (fun k => in_group eq_dec key k r) ks) = 1%nat.
Proof.
  intros Hnd Hin Hkey. induction Hnd as [|k ks Hnin Hnd IH]; [contradiction|].
  simpl. unfold in_group at 1, has_key. rewrite Hkey.
  destruct (eq_dec k0 k) as [<-|Hne].
  - rewrite list_sum_map_zero; [reflexivity|].
    intros k Hk. unfold in_group, has_key. rewrite Hkey.
    destruct (eq_dec k0 k) as [<-|]; [contradiction|reflexivity].
  - destruct Hin as [->|Hin]; [contradiction|]. now rewrite IH.
Qed.

Lemma group_sizes_sum (ks : list K) (df : list Row) :
  NoDup ks ->
  (forall r k, In r df -> key r = Some k -> In k ks) ->
  list_sum (map (fun k => List.length (filter (has_key eq_dec key k) df)) ks)
  = List.length (omap key df).
Proof.
  intros Hnd. induction df as [|r t IH]; intros Hall.
  - simpl. now apply list_sum_map_zero.
  - rewrite (map_ext _ (fun k => (in_group eq_dec key k r
                + List.length (filter (has_key eq_dec key k) t))%nat)).
    + rewrite list_sum_map_add, IH by (intros; eapply Hall; [right|]; eassumption).
      simpl. destruct (key r) as [k0|] eqn:Hkey.
      * rewrite (in_group_once ks r k0); [reflexivity|assumption| |assumption].
        apply (Hall r); [now left|assumption].
      * rewrite list_sum_map_zero; [reflexivity|].
        intros k _. unfold in_group, has_key. now rewrite Hkey.
    + intros k. simpl. unfold in_group. now destruct (has_key eq_dec key k r).
Qed.

End Partition.

Lemma omap_length_notna {A B : Type} (f : A -> option B) (l : list A) :
  (List.length (omap f l) + List.length (filter (fun a => negb (notna (f a))) l)
   = List.length l)%nat.
Proof.
  induction l as [|a t IH]; simpl; [reflexivity|].
  destruct (f a); simpl; lia.
Qed.

(** X13. The groups of the yearly trend split the dated rows: the sizes
    of the groups add up to the number of rows that have a release year,
    and the rows without one are in no group. The groups of the top
    artists split the rows that have an artist name in the same way. *)
Theorem groups_partition_rows (df : list Row) :
  list_sum (map (fun y => List.length (group_values Z.eq_dec release_year
                                         track_popularity df y))
              (map fst (popularity_by_year df)))
  = List.length (omap release_year df)
  /\ (List.length (omap release_year df)
      + List.length (filter (fun r => negb (notna (release_year r))) df)
      = List.length df)%nat
  /\ (forall r y, release_year r = None ->
                  has_key Z.eq_dec release_year y r = false)
  /\ list_sum (map (fun a => List.length (group_values string_dec artist_name
                                            track_popularity df a))
                 (group_keys string_dec String.leb artist_name df))
     = List.length (omap artist_name df).
Proof.
  split; [|split; [apply omap_length_notna|split]].
  - unfold popularity_by_year. rewrite groupby_mean_keys.
    rewrite (map_ext _ (fun y => List.length
               (filter (has_key Z.eq_dec release_year y) df)))
      by (intros; apply length_map).
    apply group_sizes_sum; [apply group_keys_NoDup|].
    intros r k Hr Hk. apply group_keys_In. eauto.
  - intros r y H. unfold has_key. now rewrite H.
  - rewrite (map_ext _ (fun a => List.length
               (filter (has_key string_dec artist_name a) df)))
      by (intros; apply length_map).
    apply group_sizes_sum; [apply group_keys_NoDup|].
    intros r k Hr Hk. apply group_keys_In. eauto.
Qed.

(** ** Means between the values *)

Lemma sum_bounds (lo hi : Q) (xs : list Q) :
  Forall (fun x => lo <= x <= hi) xs ->
  inject_Z (Z.of_nat (List.length xs)) * lo <= sum xs
  /\ sum xs <= inject_Z (Z.of_nat (List.length xs)) * hi.
Proof.
  induction xs as [|x l IH] using rev_ind; intros H.
  - unfold sum; simpl. change (inject_Z 0) with 0.
    split; ring_simplify; apply Qle_refl.
  - apply Forall_app in H. destruct H as [Hl Hx].
    inversion Hx as [|? ? Hb _]; subst. destruct (IH Hl) as (H1 & H2).
    rewrite sum_last, inject_Z_length_last.
    set (n := inject_Z (Z.of_nat (List.length l))) in *.
    destruct Hb as (Hlo & Hhi). split.
    + setoid_replace ((n + 1) * lo) with (n * lo + lo) by ring.
      now apply Qplus_le_compat.
    + setoid_replace ((n + 1) * hi) with (n * hi + hi) by ring.
      now apply Qplus_le_compat.
Qed.

Lemma mean_bounds (lo hi : Q) (xs : list Q) :
  xs <> [] -> Forall (fun x => lo <= x <= hi) xs -> lo <= mean xs <= hi.
Proof.
  intros Hne H. destruct (sum_bounds lo hi xs H) as (H1 & H2).
  assert (Hpos : 0 < inject_Z (Z.of_nat (List.length xs))).
  { change 0 with (inject_Z 0). rewrite <- Zlt_Qlt.
    destruct xs; [contradiction|simpl; lia]. }
  rewrite mean_eq. split.
  - apply Qle_shift_div_l; [exact Hpos|]. lra.
  - apply Qle_shift_div_r; [exact Hpos|]. lra.
Qed.

Lemma groupby_mean_bounds {Row K : Type}
  (eq_dec : forall a b : K, {a = b} + {a <> b}) (leb : K -> K -> bool)
  (key : Row -> option K) (value : Row -> Q) (lo hi : Q) (df : list Row) :
  Forall (fun r => lo <= value r <= hi) df ->
  Forall (fun e => lo <= snd e <= hi) (groupby_mean eq_dec leb key value df).
Proof.
  intros H. apply Forall_forall. intros [k m] Hin.
  apply groupby_mean_In in Hin. destruct Hin as ((r & Hr & Hk) & ->). simpl.
  apply mean_bounds.
  - unfold group_values. intros E. apply map_eq_nil in E.
    assert (Hf : In r (filter (has_key eq_dec key k) df)).
    { apply filter_In. split; [exact Hr|]. now apply has_key_true. }
    rewrite E in Hf. contradiction.
  - unfold group_values. apply Forall_forall. intros x Hx.
    apply in_map_iff in Hx. destruct Hx as (r' & <- & Hr').
    apply filter_In in Hr'. rewrite Forall_forall in H. apply H. tauto.
Qed.

Lemma Forall_sort_values_desc {K : Type} (P : K * Q -> Prop) (s : Series K) :
  Forall P s -> Forall P (sort_values_desc s).
Proof.
  intros H. eapply Permutation_Forall; [|exact H].
  symmetry. apply sort_values_desc_perm.
Qed.

Lemma Forall_head {A : Type} (P : A -> Prop) (n : Z) (l : list A) :
  Forall P l -> Forall P (head n l).
Proof.
  intros H. destruct (head_firstn n l) as (k & -> & _).
  rewrite <- (firstn_skipn k l) in H. now apply Forall_app in H.
Qed.

(** X14. A mean never leaves the range of the values it is taken over:
    when every track popularity of the frame lies between [lo] and [hi], so
    does every mean of the top artists, of the genre ranking and of the
    yearly trend. *)
Theorem means_within_range (df : list Row) (lo hi : Q) (n : Z) :
  Forall (fun r => lo <= track_popularity r <= hi) df ->
  Forall (fun e => lo <= snd e <= hi) (get_top_artists df n)
  /\ Forall (fun e => lo <= snd e <= hi) (get_popularity_by_genre df)
  /\ Forall (fun e => lo <= snd e <= hi) (popularity_by_year df).
Proof.
  intros H. split; [|split].
  - apply Forall_head, Forall_sort_values_desc. now apply groupby_mean_bounds.
  - apply Forall_sort_values_desc, groupby_mean_bounds.
    apply Forall_forall. intros r' Hr'. apply explode_genres_In in Hr'.
    destruct Hr' as (r & Hr & Hr'). rewrite Forall_forall in H.
    specialize (H r Hr).
    destruct (genre_tokens r); [destruct Hr' as (g & _ & ->)|subst r'];
      exact H.
  - now apply groupby_mean_bounds.
Qed.

Lemma means_within_range_witness :
  Forall (fun r => 0 <= track_popularity r <= 100) two_tracks
  /\ Forall (fun e => 0 <= snd e <= 100) (get_popularity_by_genre two_tracks).
Proof.
  assert (H : Forall (fun r => 0 <= track_popularity r <= 100) two_tracks).
  { repeat constructor; vm_compute; intros E; discriminate E. }
  split; [exact H|].
  exact (proj1 (proj2 (means_within_range two_tracks 0 100 10 H))).
Defined.

(** ** The order of the rows *)

Lemma fold_left_Qplus (l : list Q) (a : Q) :
  fold_left Qplus l a == a + sum l.
Proof.
  induction l as [|y l IH] using rev_ind.
  - unfold sum. simpl. ring.
  - rewrite sum_last, fold_left_app. simpl. rewrite IH. ring.
Qed.

Lemma sum_cons (x : Q) (l : list Q) : sum (x :: l) == x + sum l.
Proof.
  unfold sum at 1. simpl. rewrite fold_left_Qplus. ring.
Qed.

Lemma sum_perm (l l' : list Q) : Permutation l l' -> sum l == sum l'.
Proof.
  induction 1 as [|x l l' _ IH|x y l|l l' l'' _ IH1 _ IH2].
  - reflexivity.
  - now rewrite !sum_cons, IH.
  - rewrite !sum_cons. ring.
  - now rewrite IH1.
Qed.

Lemma mean_perm (l l' : list Q) : Permutation l l' -> mean l = mean l'.
Proof.
  intros H. unfold mean. apply Qred_complete.
  now rewrite (sum_perm _ _ H), (Permutation_length H).
Qed.

Lemma filter_perm {A : Type} (f : A -> bool) (l l' : list A) :
  Permutation l l' -> Permutation (filter f l) (filter f l').
Proof.
  induction 1 as [|x l l' _ IH|x y l|l l' l'' _ IH1 _ IH2]; simpl.
  - constructor.
  - destruct (f x); [now constructor|assumption].
  - destruct (f x), (f y); try reflexivity. apply perm_swap.
  - now transitivity (filter f l').
Qed.

Lemma omap_perm {A B : Type} (f : A -> option B) (l l' : list A) :
  Permutation l l' -> Permutation (omap f l) (omap f l').
Proof.
  induction 1 as [|x l l' _ IH|x y l|l l' l'' _ IH1 _ IH2]; simpl.
  - constructor.
  - destruct (f x); [now constructor|assumption].
  - destruct (f x), (f y); try reflexivity. apply perm_swap.
  - now transitivity (omap f l').
Qed.

Section SortUnique.

Context {A : Type}.
Variable leb : A -> A -> bool.
Hypothesis leb_total : forall a b, leb a b = true \/ leb b a = true.
Hypothesis leb_trans :
  forall a b c, leb a b = true -> leb b c = true -> leb a c = true.
Hypothesis leb_antisym : forall a b, leb a b = true -> leb b a = true -> a = b.

Lemma sorted_unique (l1 l2 : list A) :
  StronglySorted (fun a b => leb a b = true) l1 ->
  StronglySorted (fun a b => leb a b = true) l2 ->
  Permutation l1 l2 -> l1 = l2.
Proof.
  intros H1. revert l2. induction H1 as [|a t Ht IH Ha]; intros l2 H2 Hp.
  - now apply Permutation_nil in Hp.
  - destruct H2 as [|b t2 Ht2 Hb].
    + apply Permutation_sym, Permutation_nil in Hp. discriminate.
    + assert (Hab : a = b).
      { assert (Hina : In a (b :: t2))
          by (eapply Permutation_in; [exact Hp|now left]).
        assert (Hinb : In b (a :: t))
          by (eapply Permutation_in; [symmetry; exact Hp|now left]).
        destruct Hina as [->|Hina]; [reflexivity|].
        destruct Hinb as [->|Hinb]; [reflexivity|].
        rewrite Forall_forall in Ha, Hb. apply leb_antisym; auto. }
      subst b. f_equal. apply IH; [exact Ht2|].
      now apply Permutation_cons_inv in Hp.
Qed.

Lemma sort_StronglySorted (l : list A) :
  StronglySorted (fun a b => leb a b = true) (sort leb l).
Proof.
  apply Sorted_StronglySorted.
  - intros a b c. apply leb_trans.
  - now apply sort_Sorted.
Qed.

(** Sorting does not depend on the order in which the entries come. *)
Lemma sort_perm_eq (l l' : list A) :
  Permutation l l' -> sort leb l = sort leb l'.
Proof.
  intros H. apply sorted_unique; try apply sort_StronglySorted.
  now rewrite !sort_perm.
Qed.

End SortUnique.

Section GroupByOrder.

Context {Row K : Type}.
Variable eq_dec : forall a b : K, {a = b} + {a <> b}.
Variable leb : K -> K -> bool.
Variable key : Row -> option K.
Variable value : Row -> Q.
Hypothesis leb_total : forall a b, leb a b = true \/ leb b a = true.
Hypothesis leb_trans :
  forall a b c, leb a b = true -> leb b c = true -> leb a c = true.
Hypothesis leb_antisym : forall a b, leb a b = true -> leb b a = true -> a = b.

Lemma groupby_mean_perm (df df' : list Row) :
  Permutation df df' ->
  groupby_mean eq_dec leb key value df = groupby_mean eq_dec leb key value df'.
Proof.
  intros H. unfold groupby_mean.
  assert (Hkeys : group_keys eq_dec leb key df = group_keys eq_dec leb key df').
  { unfold group_keys. apply sort_perm_eq; try assumption.
    apply NoDup_Permutation; try apply NoDup_nodup.
    intros k. rewrite !nodup_In. split; apply Permutation_in;
      [|symmetry]; now apply omap_perm. }
  rewrite Hkeys. apply map_ext. intros k. f_equal.
  apply mean_perm. unfold group_values.
  now apply Permutation_map, filter_perm.
Qed.

End GroupByOrder.

Lemma string_leb_trans (a b c : string) :
  String.leb a b = true -> String.leb b c = true -> String.leb a c = true.
Proof.
  unfold String.leb. intros Hab Hbc.
  destruct (String.compare a b) eqn:Eab; try discriminate;
    destruct (String.compare b c) eqn:Ebc; try discriminate.
  - apply OrderedTypeEx.String_as_OT.cmp_eq in Eab. subst b. now rewrite Ebc.
  - apply OrderedTypeEx.String_as_OT.cmp_eq in Eab. subst b. now rewrite Ebc.
  - apply OrderedTypeEx.String_as_OT.cmp_eq in Ebc. subst c. now rewrite Eab.
  - apply OrderedTypeEx.String_as_OT.cmp_lt in Eab, Ebc.
    pose proof (OrderedTypeEx.String_as_OT.lt_trans _ _ _ Eab Ebc) as Hac.
    apply OrderedTypeEx.String_as_OT.cmp_lt in Hac.
    unfold OrderedTypeEx.String_as_OT.cmp in Hac. now rewrite Hac.
Qed.

Lemma Z_leb_total (a b : Z) : (a <=? b)%Z = true \/ (b <=? a)%Z = true.
Proof. rewrite !Z.leb_le. lia. Qed.

Lemma Z_leb_trans (a b c : Z) :
  (a <=? b)%Z = true -> (b <=? c)%Z = true -> (a <=? c)%Z = true.
Proof. rewrite !Z.leb_le. lia. Qed.

Lemma Z_leb_antisym (a b : Z) :
  (a <=? b)%Z = true -> (b <=? a)%Z = true -> a = b.
Proof. rewrite !Z.leb_le. lia. Qed.

(** X15. The three grouped views do not depend on the order of the rows
    of the frame: two frames with the same rows in any order have the same
    yearly trend, the same top artists and the same genre ranking. *)
Theorem views_ignore_row_order (df df' : list Row) :
  Permutation df df' ->
  popularity_by_year df = popularity_by_year df'
  /\ (forall n, get_top_artists df n = get_top_artists df' n)
  /\ get_popularity_by_genre df = get_popularity_by_genre df'.
Proof.
  intros H. split; [|split].
  - now apply (groupby_mean_perm Z.eq_dec Z.leb release_year track_popularity
                 Z_leb_total Z_leb_trans Z_leb_antisym).
  - intros n. unfold get_top_artists. do 2 f_equal.
    now apply (groupby_mean_perm string_dec String.leb artist_name
                 track_popularity String.leb_total string_leb_trans
                 String.leb_antisym).
  - unfold get_popularity_by_genre. f_equal.
    apply (groupby_mean_perm string_dec String.leb artist_genres
             track_popularity String.leb_total string_leb_trans
             String.leb_antisym).
    unfold explode_genres. now apply Permutation_flat_map.
Qed.

Lemma views_ignore_row_order_witness :
  Permutation two_tracks (rev two_tracks)
  /\ get_popularity_by_genre two_tracks = get_popularity_by_genre (rev two_tracks).
Proof.
  assert (H : Permutation two_tracks (rev two_tracks)) by apply perm_swap.
  split; [exact H|].
  exact (proj2 (proj2 (views_ignore_row_order two_tracks (rev two_tracks) H))).
Defined.

(** The state of the loop by the moments of the two columns: counts,
    means, squared differences and the cross term. *)
Lemma welford_moments_full (l : list (Q * Q)) :
  let w := fold_left welford_step l welford_init in
  let N := inject_Z (Z.of_nat (List.length l)) in
  nobs w = Z.of_nat (List.length l)
  /\ N * meanx w == sum (map fst l)
  /\ N * meany w == sum (map snd l)
  /\ ssqdm_x w == sumsq (map fst l) - N * meanx w * meanx w
  /\ ssqdm_y w == sumsq (map snd l) - N * meany w * meany w
  /\ covxy w == sum (map (fun v => fst v * snd v) l) - N * meanx w * meany w.
Proof.
  induction l as [|v l IH] using rev_ind.
  - simpl. unfold sum, sumsq; simpl.
    split; [reflexivity|]. repeat split; ring.
  - rewrite welford_run_last. cbv zeta in IH |- *.
    set (w := fold_left welford_step l welford_init) in *.
    destruct IH as (Hn & Hmx & Hmy & Hsx & Hsy & Hc).
    assert (Hpos : 0 <= inject_Z (Z.of_nat (List.length l))).
    { apply inject_Z_length_nonneg. }
    cbn [welford_step nobs meanx meany ssqdm_x ssqdm_y covxy].
    rewrite !map_app. cbn [map]. rewrite !sum_last, !sumsq_last.
    rewrite inject_Z_length_last, Hn, inject_Z_plus.
    change (inject_Z 1) with 1.
    set (N := inject_Z (Z.of_nat (List.length l))) in *.
    split; [rewrite length_app; simpl; lia|].
    split; [rewrite <- Hmx; field; lra|].
    split; [rewrite <- Hmy; field; lra|].
    split; [rewrite Hsx; field; lra|].
    split; [rewrite Hsy; field; lra|].
    rewrite Hc. field. lra.
Qed.

Lemma Qmult_cancel_pos (n a b : Q) : 0 < n -> n * a == n * b -> a == b.
Proof.
  intros Hn H.
  setoid_replace a with (n * a / n) by (field; lra).
  setoid_replace b with (n * b / n) by (field; lra).
  now rewrite H.
Qed.

(** The loop over the same pairs in another order ends with the same
    count, squared differences and cross term. *)
Lemma welford_perm (l l' : list (Q * Q)) :
  Permutation l l' ->
  let w := fold_left welford_step l welford_init in
  let w' := fold_left welford_step l' welford_init in
  nobs w = nobs w'
  /\ ssqdm_x w == ssqdm_x w'
  /\ ssqdm_y w == ssqdm_y w'
  /\ covxy w == covxy w'.
Proof.
  intros Hp. destruct l as [|v t].
  - apply Permutation_nil in Hp. subst l'. simpl. repeat split; reflexivity.
  - destruct (welford_moments_full (v :: t)) as (Hn & Hmx & Hmy & Hsx & Hsy & Hc).
    destruct (welford_moments_full l') as (Hn' & Hmx' & Hmy' & Hsx' & Hsy' & Hc').
    cbv zeta.
    set (w := fold_left welford_step (v :: t) welford_init) in *.
    set (w' := fold_left welford_step l' welford_init) in *.
    rewrite <- (Permutation_length Hp) in *.
    set (N := inject_Z (Z.of_nat (List.length (v :: t)))) in *.
    assert (HN : 0 < N).
    { unfold N. change 0 with (inject_Z 0). rewrite <- Zlt_Qlt. simpl. lia. }
    assert (Ex : meanx w == meanx w').
    { apply (Qmult_cancel_pos N _ _ HN). rewrite Hmx, Hmx'.
      now apply sum_perm, Permutation_map. }
    assert (Ey : meany w == meany w').
    { apply (Qmult_cancel_pos N _ _ HN). rewrite Hmy, Hmy'.
      now apply sum_perm, Permutation_map. }
    split; [congruence|].
    split; [|split].
    + rewrite Hsx, Hsx', Ex. unfold sumsq.
      now rewrite (sum_perm _ _ (Permutation_map _ (Permutation_map _ Hp))).
    + rewrite Hsy, Hsy', Ey. unfold sumsq.
      now rewrite (sum_perm _ _ (Permutation_map _ (Permutation_map _ Hp))).
    + rewrite Hc, Hc', Ex, Ey.
      now rewrite (sum_perm _ _ (Permutation_map _ Hp)).
Qed.

Lemma corr_pair_perm (xs ys xs' ys' : list Q) :
  Permutation (combine xs ys) (combine xs' ys') ->
  corr_pair xs ys = corr_pair xs' ys'.
Proof.
  intros Hp. unfold corr_pair, welford_run.
  destruct (welford_perm _ _ Hp) as (Hn & Hsx & Hsy & Hc). cbv zeta in *.
  set (w := fold_left welford_step (combine xs ys) welford_init) in *.
  set (w' := fold_left welford_step (combine xs' ys') welford_init) in *.
  rewrite Hn, (Qeq_eqR _ _ Hc).
  assert (Hprod : ssqdm_x w * ssqdm_y w == ssqdm_x w' * ssqdm_y w')
    by now rewrite Hsx, Hsy.
  now rewrite (Qeq_eqR _ _ Hprod).
Qed.

Lemma column_nth (df : list Row) (cols : list (Row -> Q)) (k : nat) :
  nth k (map (fun col : Row -> Q => map col df) cols) []
  = match nth_error cols k with
    | Some col => map col df
    | None => []
    end.
Proof.
  revert k. induction cols as [|c cols IH]; intros [|k]; simpl; auto.
Qed.

Lemma combine_columns (df : list Row) (cx cy : Row -> Q) :
  combine (map cx df) (map cy df) = map (fun r => (cx r, cy r)) df.
Proof. induction df as [|r t IH]; simpl; [reflexivity|now rewrite IH]. Qed.

(** X16. The correlation matrix does not depend on the order of the rows
    of the frame. *)
Theorem correlation_ignores_row_order (df df' : list Row) :
  Permutation df df' ->
  get_correlation_matrix df = get_correlation_matrix df'.
Proof.
  intros Hp. unfold get_correlation_matrix, nancorr. rewrite !length_map.
  apply map_ext. intros i. apply map_ext. intros j.
  unfold nancorr_entry. apply corr_pair_perm. rewrite !column_nth.
  destruct (nth_error numerical_cols (Nat.max i j)) as [cx|];
    [|reflexivity].
  destruct (nth_error numerical_cols (Nat.min i j)) as [cy|].
  - rewrite !combine_columns. now apply Permutation_map.
  - destruct (map cx df), (map cx df'); reflexivity.
Qed.

Lemma correlation_ignores_row_order_witness :
  Permutation two_tracks (rev two_tracks)
  /\ get_correlation_matrix two_tracks = get_correlation_matrix (rev two_tracks).
Proof.
  assert (H : Permutation two_tracks (rev two_tracks)) by apply perm_swap.
  split; [exact H|].
  exact (correlation_ignores_row_order two_tracks (rev two_tracks) H).
Defined.

(** ** The genres of the ranking *)

Lemma Forall2_with_In {A B : Type} (P : A -> B -> Prop) (l : list A)
  (l' : list B) :
  Forall2 P l l' -> Forall2 (fun a b => In b l' /\ P a b) l l'.
Proof.
  induction 1 as [|a b l l' Hab _ IH]; constructor.
  - split; [now left|exact Hab].
  - eapply Forall2_weaken; [|exact IH].
    intros x y (Hy & Hxy). split; [now right|exact Hxy].
Qed.

Lemma genre_tokens_None (r : Row) :
  genre_tokens r = None <-> artist_genres r = None.
Proof. unfold genre_tokens. destruct (artist_genres r); simpl; split; congruence. Qed.

(** The genres of the ranking are the tokens of the genre cells. *)
Lemma ranking_genres (df : list Row) (g : string) :
  In g (map fst (get_popularity_by_genre df))
  <-> exists r tokens, In r df /\ genre_tokens r = Some tokens /\ In g tokens.
Proof.
  unfold get_popularity_by_genre.
  assert (Hperm : Permutation
            (map fst (sort_values_desc
                        (groupby_mean string_dec String.leb artist_genres
                           track_popularity (explode_genres df))))
            (group_keys string_dec String.leb artist_genres (explode_genres df))).
  { rewrite (Permutation_map fst (sort_values_desc_perm _)).
    now rewrite groupby_mean_keys. }
  split.
  - intros Hin. apply (Permutation_in _ Hperm) in Hin.
    apply group_keys_In in Hin. destruct Hin as (r' & Hr' & Hg).
    apply explode_genres_In in Hr'. destruct Hr' as (r & Hr & H).
    destruct (genre_tokens r) as [tokens|] eqn:Ht.
    + destruct H as (g' & Hg' & ->). simpl in Hg. injection Hg as ->.
      now exists r, tokens.
    + subst r'. apply genre_tokens_None in Ht. congruence.
  - intros (r & tokens & Hr & Ht & Hg).
    apply (Permutation_in _ (Permutation_sym Hperm)).
    apply group_keys_In. exists (with_genres r (Some g)). split; [|reflexivity].
    apply explode_genres_In. exists r. split; [exact Hr|].
    rewrite Ht. now exists g.
Qed.

(** X17. In the genre ranking of a loaded frame the genres are the tokens
    of the genre cells of its records, and every record counts in at least
    one genre: a record read without genres counts in "unknown". *)
Theorem loaded_records_all_ranked parse file out :
  load_and_preprocess_data parse file = Ok out ->
  (forall g, In g (map fst (get_popularity_by_genre out))
             <-> exists r tokens,
                 In r out /\ genre_tokens r = Some tokens /\ In g tokens)
  /\ (forall r, In r out ->
                exists g tokens,
                  genre_tokens r = Some tokens /\ In g tokens
                  /\ In g (map fst (get_popularity_by_genre out)))
  /\ Forall2 (fun line r =>
                is_na_cell (csv_artist_genres line) = true ->
                In "unknown" (map fst (get_popularity_by_genre out)))
       (filter retained file) out.
Proof.
  intros Hload. split; [intros g; apply ranking_genres|].
  assert (Hrec : forall r, In r out ->
            exists g tokens, genre_tokens r = Some tokens /\ In g tokens
                             /\ In g (map fst (get_popularity_by_genre out))).
  { intros r Hin. pose proof (genre_count_pos r) as Hpos.
    unfold genre_count in Hpos.
    destruct (genre_tokens r) as [tokens|] eqn:Ht.
    - destruct tokens as [|g ts]; [simpl in Hpos; lia|].
      exists g, (g :: ts). split; [reflexivity|]. split; [now left|].
      apply ranking_genres. exists r, (g :: ts). repeat split; auto. now left.
    - exfalso. apply genre_tokens_None in Ht.
      pose proof Hload as Hl. apply load_Ok in Hl.
      destruct (Forall2_In_r _ _ _ _ Hl Hin) as (line & _ & _ & d & _ & ->).
      simpl in Ht. destruct (read_cell (csv_artist_genres line)); discriminate. }
  split; [exact Hrec|].
  pose proof Hload as Hl. apply load_Ok in Hl.
  assert (Hl' : Forall2 (fun line r =>
            In r out /\ (is_na_cell (csv_artist_genres line) = true ->
                         genre_tokens r = Some ["unknown"]))
          (filter retained file) out).
  { eapply Forall2_weaken; [|exact (Forall2_with_In _ _ _ Hl)].
    intros line r (Hin & _ & d & _ & ->). split; [exact Hin|]. intros Hna.
    unfold genre_tokens, derive_row, fill_genres, read_row; simpl.
    unfold read_cell. now rewrite Hna. }
  eapply Forall2_weaken; [|exact Hl'].
  intros line r (Hin & Hna) H. apply ranking_genres.
  exists r, ["unknown"]. repeat split; auto. now left.
Qed.

Lemma loaded_records_all_ranked_witness :
  load_and_preprocess_data iso_date [line_no_genres; line_80]
  = Ok [derive_row (fill_genres (read_row line_no_genres),
                    Some (mkTimestamp 2018 3 1));
        sample_row "A" "Pop" 80 2020]
  /\ (In "unknown"
        (map fst (get_popularity_by_genre
           [derive_row (fill_genres (read_row line_no_genres),
                        Some (mkTimestamp 2018 3 1));
            sample_row "A" "Pop" 80 2020]))
      <-> exists r tokens,
          In r [derive_row (fill_genres (read_row line_no_genres),
                            Some (mkTimestamp 2018 3 1));
                sample_row "A" "Pop" 80 2020]
          /\ genre_tokens r = Some tokens /\ In "unknown" tokens).
Proof.
  assert (Hload : load_and_preprocess_data iso_date [line_no_genres; line_80]
    = Ok [derive_row (fill_genres (read_row line_no_genres),
                      Some (mkTimestamp 2018 3 1));
          sample_row "A" "Pop" 80 2020]).
  { vm_compute. reflexivity. }
  split; [exact Hload|].
  exact (proj1 (loaded_records_all_ranked iso_date _ _ Hload) "unknown").
Defined.

(** ** The delimiter of the genre cell *)

(** The genres of the ranking are the tokens that [split] cuts from the
    genre cells. *)
Lemma ranking_genres_split (df : list Row) (g : string) :
  In g (map fst (get_popularity_by_genre df))
  <-> exists r cell,
      In r df /\ artist_genres r = Some cell /\ In g (split ", " cell).
Proof.
  rewrite ranking_genres. unfold genre_tokens. split.
  - intros (r & tokens & Hr & Ht & Hg).
    destruct (artist_genres r) as [cell|] eqn:Hc; [|discriminate].
    simpl in Ht. injection Ht as <-. now exists r, cell.
  - intros (r & cell & Hr & Hc & Hg).
    exists r, (split ", " cell). rewrite Hc. now repeat split.
Qed.

(** C10. The genre ranking cuts each genre cell at every comma followed
    by a space and nowhere else. A text without that pair is one token; a
    text that starts with such a token and the pair gives the token and
    then the split of what follows; the tokens of a row are the split of
    its genre cell, and the genres of the ranking are these tokens. So
    "Pop, Rock,Jazz" counts for the genres "Pop" and "Rock,Jazz",
    "Pop,Rock" is one genre, and a missing genre cell, filled with
    "unknown" by the load, is the one-genre list of that word. *)
Theorem split_on_comma_space parse file :
  (forall s, ~ has_separator s -> split ", " s = [s])
  /\ (forall t s, ~ has_separator t ->
                  split ", " (t ++ ", " ++ s) = t :: split ", " s)
  /\ split ", " "Pop,Rock" = ["Pop,Rock"]
  /\ (forall rest, get_popularity_by_genre [track "A" "Pop,Rock" 80 rest]
                   = [("Pop,Rock", 80)])
  /\ split ", " "unknown" = ["unknown"]
  /\ match load_and_preprocess_data parse file with
     | Ok out =>
         Forall2 (fun line r =>
                    is_na_cell (csv_artist_genres line) = true ->
                    artist_genres r = Some "unknown"
                    /\ genre_tokens r = Some ["unknown"]
                    /\ genre_count r = 1%nat)
           (filter retained file) out
     | Raise e => e = DateParseError
     end
  /\ (forall r cell, artist_genres r = Some cell ->
                     genre_tokens r = Some (split ", " cell))
  /\ (forall df g,
         In g (map fst (get_popularity_by_genre df))
         <-> exists r cell,
             In r df /\ artist_genres r = Some cell /\ In g (split ", " cell))
  /\ (forall restA restB,
         get_popularity_by_genre
           [track "A" "Pop, Rock,Jazz" 80 restA; track "B" "Pop" 40 restB]
         = [("Rock,Jazz", 80); ("Pop", 60)])
  /\ (forall rest g,
         In g (map fst (get_popularity_by_genre
                          [track "A" "Pop, Rock, Indie Pop,Folk" 80 rest]))
         <-> g = "Pop" \/ g = "Rock" \/ g = "Indie Pop,Folk").
Proof.
  split; [intros s Hs; now apply (split_aux_no_separator s "")|].
  split; [intros t s Ht; now apply (split_aux_at_separator t s "")|].
  split; [now apply (split_aux_no_separator "Pop,Rock" ""), no_separator_Pop_Rock|].
  split; [reflexivity|]. split; [reflexivity|].
  split.
  { destruct (load_and_preprocess_data parse file) as [out|e] eqn:Hload.
    - apply load_Ok in Hload. eapply Forall2_weaken; [|exact Hload].
      intros line r (_ & d & _ & ->) Hna.
      unfold genre_count, genre_tokens, derive_row, fill_genres, read_row; simpl.
      unfold read_cell. rewrite Hna. simpl. repeat split.
    - now apply load_Raise in Hload. }
  split; [intros r cell Hc; unfold genre_tokens; now rewrite Hc|].
  split; [apply ranking_genres_split|].
  split; [intros; reflexivity|].
  intros rest g. rewrite ranking_genres_split. split.
  - intros (r & cell & [<-|[]] & Hc & Hg). simpl in Hc. injection Hc as <-.
    change (split ", " "Pop, Rock, Indie Pop,Folk")
      with ["Pop"; "Rock"; "Indie Pop,Folk"] in Hg.
    simpl in Hg. intuition.
  - intros Hg. exists (track "A" "Pop, Rock, Indie Pop,Folk" 80 rest),
      "Pop, Rock, Indie Pop,Folk".
    split; [now left|]. split; [reflexivity|].
    change (split ", " "Pop, Rock, Indie Pop,Folk")
      with ["Pop"; "Rock"; "Indie Pop,Folk"].
    simpl. intuition.
Qed.

Example genre_view_on_a_float_column :
  get_popularity_by_genre_df (mkDataFrame float64 []) = Raise AttributeError
  /\ get_popularity_by_genre_df (mkDataFrame object two_tracks)
     = Ok [("Rock", 80); ("Pop", 60)].
Proof. split; reflexivity. Qed.
